(** * Classical-quotations: the generation orchestrator and the quote library

    A shallow embedding of [src/services/geminiService.ts] and of the two
    React components [QuoteLibrary] and [VideoAnalyzer]
    ([src/components/QuoteLibrary.tsx]), followed by the properties of the
    retry transport, of submission, of the duplicate-avoidance history, of
    the simulated progress bar and of the rotating quote display.

    Conventions.
    - A JavaScript string is represented by the bytes of its UTF-8 text
      (Rocq's [string]); the needles the code searches for are ASCII.
    - A JavaScript number that carries a duration or a percentage is an
      exact rational ([Q]); NaN and the infinities are not represented.
    - A component is its record of [useState] cells; a handler is a function
      on that record; an effect with dependency list [[status]] runs when a
      handler has changed [status].
    - The outside world (environment variable, file reader, remote model,
      JSON codec, random source) is an explicit argument. *)

From Stdlib Require Import Bool Arith ZArith QArith Qminmax Lia Lqa.
From Stdlib Require Import List String Ascii Permutation.
Import ListNotations.

Close Scope Q_scope.
Set Implicit Arguments.

(* ================================================================== *)
(** * JavaScript strings *)
(* ================================================================== *)

Module JsString.

Local Open Scope string_scope.
Local Open Scope nat_scope.

(** [s.startsWith(p)] *)
Definition startsWith (s p : string) : bool := String.prefix p s.

(** [s.includes(sub)]: [sub] occurs in [s] at some offset. *)
Fixpoint includes (s sub : string) : bool :=
  String.prefix sub s ||
  match s with
  | EmptyString => false
  | String _ rest => includes rest sub
  end.

(** A string is truthy when it is not empty. *)
Definition truthy (s : string) : bool := negb (s =? "")%string.

Definition byte (n : nat) : ascii := ascii_of_nat n.

(** White space and line terminators removed by [String.prototype.trim],
    by the length of their UTF-8 encoding. One byte: TAB, LF, VT, FF, CR,
    SP. *)
Definition ws1 (a : ascii) : bool :=
  let n := nat_of_ascii a in
  ((9 <=? n) && (n <=? 13)) || (n =? 32).

(** Two bytes: U+00A0 (C2 A0). *)
Definition ws2 (a b : ascii) : bool :=
  (nat_of_ascii a =? 194) && (nat_of_ascii b =? 160).

(** Three bytes: U+1680 (E1 9A 80), U+2000..U+200A (E2 80 80..8A),
    U+2028, U+2029, U+202F (E2 80 A8, A9, AF), U+205F (E2 81 9F),
    U+3000 (E3 80 80), U+FEFF (EF BB BF). *)
Definition ws3 (a b c : ascii) : bool :=
  let x := nat_of_ascii a in
  let y := nat_of_ascii b in
  let z := nat_of_ascii c in
  ((x =? 225) && (y =? 154) && (z =? 128)) ||
  ((x =? 226) && (y =? 128) &&
     (((128 <=? z) && (z <=? 138)) || (z =? 168) || (z =? 169) || (z =? 175))) ||
  ((x =? 226) && (y =? 129) && (z =? 159)) ||
  ((x =? 227) && (y =? 128) && (z =? 128)) ||
  ((x =? 239) && (y =? 187) && (z =? 191)).

(** [s.trimStart()] *)
Fixpoint trimStart (s : string) : string :=
  match s with
  | EmptyString => s
  | String a r1 =>
      if ws1 a then trimStart r1 else
      match r1 with
      | EmptyString => s
      | String b r2 =>
          if ws2 a b then trimStart r2 else
          match r2 with
          | EmptyString => s
          | String c r3 => if ws3 a b c then trimStart r3 else s
          end
      end
  end.

Fixpoint rev (s : string) : string :=
  match s with
  | EmptyString => EmptyString
  | String a r => rev r ++ String a EmptyString
  end.

(** [trimStart] on the reversed text: the bytes of a character arrive last
    byte first. *)
Fixpoint trimStartRev (s : string) : string :=
  match s with
  | EmptyString => s
  | String c r1 =>
      if ws1 c then trimStartRev r1 else
      match r1 with
      | EmptyString => s
      | String b r2 =>
          if ws2 b c then trimStartRev r2 else
          match r2 with
          | EmptyString => s
          | String a r3 => if ws3 a b c then trimStartRev r3 else s
          end
      end
  end.

(** [s.trimEnd()] *)
Definition trimEnd (s : string) : string := rev (trimStartRev (rev s)).

(** [s.trim()] *)
Definition trim (s : string) : string := trimEnd (trimStart s).

(** The characters the source writes as escapes. *)
Definition nl : string := String (byte 10) EmptyString.
Definition dquote : string := String (byte 34) EmptyString.

End JsString.

(* ================================================================== *)
(** * types.ts *)
(* ================================================================== *)

Module Types.

Inductive Category : Type :=
  | CatAll            (* '全部' *)
  | CatMortgage       (* '房贷·生存' *)
  | CatWorkplace      (* '职场·内卷' *)
  | CatMarriage       (* '婚姻·情感' *)
  | CatHumanNature    (* '人性·现实' *)
  | CatLoneliness     (* '孤独·崩溃' *)
  | CatMoney          (* '金钱·阶层' *)
  | CatLyingFlat.     (* '摆烂·躺平' *)

Definition Category_eqb (a b : Category) : bool :=
  match a, b with
  | CatAll, CatAll | CatMortgage, CatMortgage | CatWorkplace, CatWorkplace
  | CatMarriage, CatMarriage | CatHumanNature, CatHumanNature
  | CatLoneliness, CatLoneliness | CatMoney, CatMoney
  | CatLyingFlat, CatLyingFlat => true
  | _, _ => false
  end.

Record Quote : Type := mkQuote {
  id : Z;
  text : string;
  category : Category;
  author : option string
}.

Record AnalysisResult : Type := mkAnalysisResult {
  transcription : string;
  generatedQuotes : list string
}.

Inductive AnalysisStatus : Type :=
  | IDLE | UPLOADING | ANALYZING | COMPLETED | ERROR.

Definition AnalysisStatus_eqb (a b : AnalysisStatus) : bool :=
  match a, b with
  | IDLE, IDLE | UPLOADING, UPLOADING | ANALYZING, ANALYZING
  | COMPLETED, COMPLETED | ERROR, ERROR => true
  | _, _ => false
  end.

(** A browser [File]: what the code reads of it. *)
Record File : Type := mkFile {
  name : string;
  type : string;     (* the mime type *)
  size : N
}.

End Types.

(* ================================================================== *)
(** * services/geminiService.ts *)
(* ================================================================== *)

Module GeminiService.

Import Types.
Local Open Scope string_scope.

(** A thrown value: [error.message] may be missing. *)
Record JsError : Type := mkError { message : option string }.

Definition Error (msg : string) : JsError := mkError (Some msg).

Inductive DurationOption : Type :=
  | D10s | D15s | D25s | D60s | D3m | D5m.

Record AnalysisOptions : Type := mkOptions {
  customInstruction : string;
  targetDuration : DurationOption;
  avoidQuotes : list string
}.

Inductive Part : Type :=
  | InlineData (mimeType data : string)
  | Text (prompt : string).

#[local] Unset Elimination Schemes.
Inductive Schema : Type :=
  | TString (description : option string)
  | TArray (items : Schema) (description : string)
  | TObject (properties : list (string * Schema)).
#[local] Set Elimination Schemes.

Record GenerateParams : Type := mkParams {
  model : string;
  parts : list Part;
  systemInstruction : string;
  responseMimeType : string;
  responseSchema : Schema
}.

(** What the code reads of a response: [response.text]. *)
Record Response : Type := mkResponse { responseText : option string }.

(** The world around the service. [generateContent k p] is the outcome of
    the call number [k] (counted from 0) of [ai.models.generateContent];
    [SYSTEM_PROMPT] comes from [utils/constants], which is not part of the
    sources at hand. *)
Record Env : Type := mkEnv {
  API_KEY : option string;
  SYSTEM_PROMPT : string;
  readAsBase64 : File -> JsError + string;
  generateContent : nat -> GenerateParams -> JsError + Response;
  JSON_stringify : list string -> string;
  JSON_parse : string -> JsError + AnalysisResult
}.

(** What the service does to the world, in order. *)
Inductive IOEvent : Type :=
  | EvReadBlob (f : File)
  | EvGenerateContent (params : GenerateParams)
  | EvSetTimeout (ms : nat)
  | EvConsoleWarn (attemptsLeft : nat)
  | EvConsoleError (e : JsError).

Definition World : Type := list IOEvent.

(** An asynchronous computation: it extends the log and resolves ([inr])
    or rejects ([inl]). *)
Definition IO (A : Type) : Type := World -> World * (JsError + A).

Definition ret {A} (a : A) : IO A := fun w => (w, inr a).

Definition throw {A} (e : JsError) : IO A := fun w => (w, inl e).

Definition bind {A B} (m : IO A) (k : A -> IO B) : IO B :=
  fun w =>
    match m w with
    | (w', inr a) => k a w'
    | (w', inl e) => (w', inl e)
    end.

Definition tryCatch {A} (m : IO A) (handler : JsError -> IO A) : IO A :=
  fun w =>
    match m w with
    | (w', inr a) => (w', inr a)
    | (w', inl e) => handler e w'
    end.

Definition emit (ev : IOEvent) : IO unit := fun w => ((w ++ [ev])%list, inr tt).

Definition lift {A} (r : JsError + A) : IO A := fun w => (w, r).

Notation "x <- m ;; k" := (bind m (fun x => k))
  (at level 61, m at next level, right associativity).
Notation "m ;;; k" := (bind m (fun _ => k))
  (at level 61, right associativity).

Definition isCall (ev : IOEvent) : bool :=
  match ev with EvGenerateContent _ => true | _ => false end.

(** The number of remote calls made so far. *)
Definition calls (w : World) : nat := List.length (filter isCall w).

(** [blobToBase64(blob)] *)
Definition blobToBase64 (env : Env) (blob : File) : IO string :=
  emit (EvReadBlob blob) ;;; lift (readAsBase64 env blob).

(** [ai.models.generateContent(params)] *)
Definition callGenerateContent (env : Env) (params : GenerateParams)
  : IO Response :=
  fun w => ((w ++ [EvGenerateContent params])%list,
            generateContent env (calls w) params).

(** [error.message?.includes('Rpc failed') || error.message?.includes('503')] *)
Definition retryable (error : JsError) : bool :=
  match message error with
  | Some m => JsString.includes m "Rpc failed" || JsString.includes m "503"
  | None => false
  end.

(** [generateWithRetry(ai, params, retries = 2)] *)
Fixpoint generateWithRetry (env : Env) (params : GenerateParams)
  (retries : nat) : IO Response :=
  tryCatch (callGenerateContent env params)
    (fun error =>
       match retries with
       | S retries' =>
           if retryable error then
             emit (EvConsoleWarn retries) ;;;
             emit (EvSetTimeout 2000) ;;;
             generateWithRetry env params retries'
           else throw error
       | O => throw error
       end).

Definition defaultRetries : nat := 2.

Definition durationMap (d : DurationOption) : string :=
  match d with
  | D10s => "极短（读完约10秒），适合短视频标题，一针见血，20字左右。"
  | D15s => "短句（读完约15秒），适合金句卡片，35字左右。"
  | D25s => "中长句（读完约25秒），适合口播文案，60字左右，有情绪铺垫。"
  | D60s => "长独白（读完约60秒），字数请务必参考“房贷”参考文案，约300字左右，深度剖析。"
  | D3m => "深度长文（读完约3分钟），800字左右，层层递进，直击痛点，类似于一篇完整的社会观察小作文。"
  | D5m => "纪录片式超长独白（读完约5分钟），1500字以上，宏大叙事与微观痛苦结合，极度扎心，细节丰富。"
  end.

Definition nl := JsString.nl.

(** The opening of the prompt: video mode or text-only mode. *)
Definition promptHead (hasVideo : bool) : string :=
  if hasVideo then
    "请分析这段视频的音频/旁白内容。" ++ nl ++
    "1. 提供视频内容的逐字稿或详细摘要。" ++ nl ++
    "2. 基于视频内容，创作3句'大承活法'风格的扎心语录。"
  else
    "请基于用户提供的主题，创作3句'大承活法'风格的扎心语录。".

(** The custom instruction, or the fallback theme when there is neither a
    video nor an instruction. *)
Definition promptTopic (hasVideo : bool) (options : AnalysisOptions) : string :=
  if JsString.truthy (customInstruction options)
     && negb (JsString.trim (customInstruction options) =? "")
  then
    nl ++ nl ++ "【用户自定义主题】：请重点结合主题 " ++ JsString.dquote ++
    customInstruction options ++ JsString.dquote ++ " 进行创作。"
  else if negb hasVideo then
    nl ++ nl ++ "【创作主题】：请自由发挥，关于成年人的生活压力，房贷，车贷，工作。"
  else "".

Definition promptDuration (options : AnalysisOptions) : string :=
  nl ++ nl ++ "【时长要求】：" ++ durationMap (targetDuration options).

Definition promptAvoid (env : Env) (options : AnalysisOptions) : string :=
  match avoidQuotes options with
  | [] => ""
  | _ :: _ =>
      nl ++ nl ++
      "【禁止重复】：请务必【不要】生成与以下内容雷同的语录，必须尝试新的切入点、风格或修辞：" ++
      nl ++ JSON_stringify env (avoidQuotes options)
  end.

Definition buildPrompt (env : Env) (hasVideo : bool)
  (options : AnalysisOptions) : string :=
  promptHead hasVideo ++ promptTopic hasVideo options ++
  promptDuration options ++ promptAvoid env options.

Definition schema : Schema :=
  TObject
    [ ("transcription",
       TString (Some "Transcription of the video, or summary of the theme if no video provided"));
      ("generatedQuotes",
       TArray (TString None) "3 generated heart-wrenching quotes") ].

Definition requestParams (env : Env) (parts : list Part) : GenerateParams :=
  {| model := "gemini-2.5-flash";
     parts := parts;
     systemInstruction := SYSTEM_PROMPT env;
     responseMimeType := "application/json";
     responseSchema := schema |}.

(** [analyzeVideoAndGenerateQuotes(videoFile, options)] *)
Definition analyzeVideoAndGenerateQuotes (env : Env)
  (videoFile : option File) (options : AnalysisOptions) : IO AnalysisResult :=
  tryCatch
    (_ <- match API_KEY env with
          | Some (String _ _) => ret tt
          | _ => throw (Error "API Key not found in environment")
          end ;;
     media <- match videoFile with
              | Some f =>
                  base64Video <- blobToBase64 env f ;;
                  ret [InlineData (type f) base64Video]
              | None => ret []
              end ;;
     let hasVideo := match videoFile with Some _ => true | None => false end in
     let prompt := buildPrompt env hasVideo options in
     response <- generateWithRetry env
                   (requestParams env (media ++ [Text prompt])%list)
                   defaultRetries ;;
     match responseText response with
     | Some (String _ _ as text) => lift (JSON_parse env text)
     | _ => throw (Error "No response from Gemini")
     end)
    (fun error => emit (EvConsoleError error) ;;; throw error).

End GeminiService.

(* ================================================================== *)
(** * components/VideoAnalyzer *)
(* ================================================================== *)

Module VideoAnalyzer.

Import Types.
Local Open Scope string_scope.

Definition DurationOption : Type := GeminiService.DurationOption.
Definition JsError : Type := GeminiService.JsError.

(** The [useState] cells of the component, then the two variables of the
    progress effect: its closure variable [currentProgress] and whether
    its interval is set. The clipboard flag [transcriptionCopied] is
    presentation only and left out. *)
Record State : Type := mkState {
  status : AnalysisStatus;
  file : option File;
  videoUrl : option string;
  videoDuration : Q;
  result : option AnalysisResult;
  error : option string;
  customInstruction : string;
  targetDuration : DurationOption;
  generatedHistory : list string;
  progress : Q;
  currentProgress : Q;
  interval : bool
}.

Definition init : State :=
  {| status := IDLE; file := None; videoUrl := None; videoDuration := 0%Q;
     result := None; error := None; customInstruction := "";
     targetDuration := GeminiService.D15s; generatedHistory := [];
     progress := 0%Q; currentProgress := 0%Q; interval := false |}.

(** ** Setters *)

Definition setStatus (v : AnalysisStatus) (st : State) : State :=
  mkState v (file st) (videoUrl st) (videoDuration st) (result st) (error st)
    (customInstruction st) (targetDuration st) (generatedHistory st)
    (progress st) (currentProgress st) (interval st).

Definition setFile (v : option File) (st : State) : State :=
  mkState (status st) v (videoUrl st) (videoDuration st) (result st) (error st)
    (customInstruction st) (targetDuration st) (generatedHistory st)
    (progress st) (currentProgress st) (interval st).

Definition setVideoUrl (v : option string) (st : State) : State :=
  mkState (status st) (file st) v (videoDuration st) (result st) (error st)
    (customInstruction st) (targetDuration st) (generatedHistory st)
    (progress st) (currentProgress st) (interval st).

Definition setVideoDuration (v : Q) (st : State) : State :=
  mkState (status st) (file st) (videoUrl st) v (result st) (error st)
    (customInstruction st) (targetDuration st) (generatedHistory st)
    (progress st) (currentProgress st) (interval st).

Definition setResult (v : option AnalysisResult) (st : State) : State :=
  mkState (status st) (file st) (videoUrl st) (videoDuration st) v (error st)
    (customInstruction st) (targetDuration st) (generatedHistory st)
    (progress st) (currentProgress st) (interval st).

Definition setError (v : option string) (st : State) : State :=
  mkState (status st) (file st) (videoUrl st) (videoDuration st) (result st) v
    (customInstruction st) (targetDuration st) (generatedHistory st)
    (progress st) (currentProgress st) (interval st).

Definition setCustomInstruction (v : string) (st : State) : State :=
  mkState (status st) (file st) (videoUrl st) (videoDuration st) (result st)
    (error st) v (targetDuration st) (generatedHistory st)
    (progress st) (currentProgress st) (interval st).

Definition setTargetDuration (v : DurationOption) (st : State) : State :=
  mkState (status st) (file st) (videoUrl st) (videoDuration st) (result st)
    (error st) (customInstruction st) v (generatedHistory st)
    (progress st) (currentProgress st) (interval st).

(** [setGeneratedHistory] takes an updater, as in
    [setGeneratedHistory(prev => ...)]; a plain value is a constant updater. *)
Definition setGeneratedHistory (f : list string -> list string) (st : State)
  : State :=
  mkState (status st) (file st) (videoUrl st) (videoDuration st) (result st)
    (error st) (customInstruction st) (targetDuration st)
    (f (generatedHistory st))
    (progress st) (currentProgress st) (interval st).

Definition setProgress (v : Q) (st : State) : State :=
  mkState (status st) (file st) (videoUrl st) (videoDuration st) (result st)
    (error st) (customInstruction st) (targetDuration st) (generatedHistory st)
    v (currentProgress st) (interval st).

Definition setCurrentProgress (v : Q) (st : State) : State :=
  mkState (status st) (file st) (videoUrl st) (videoDuration st) (result st)
    (error st) (customInstruction st) (targetDuration st) (generatedHistory st)
    (progress st) v (interval st).

Definition setIntervalActive (v : bool) (st : State) : State :=
  mkState (status st) (file st) (videoUrl st) (videoDuration st) (result st)
    (error st) (customInstruction st) (targetDuration st) (generatedHistory st)
    (progress st) (currentProgress st) v.

(** ** Messages *)

Definition msgNotVideo : string := "请上传有效的视频文件 (MP4, MOV等)".
Definition msgOverLimit : string :=
  "视频时长超过限制（最大5分钟）。请上传较短的视频。".
Definition msgNothingToAnalyze : string := "请至少上传一个视频或输入一个主题。".
Definition msgOverLimitBlocked : string :=
  "视频时长超过5分钟，无法进行二创。请更换视频。".
Definition msgUnknown : string := "分析过程中发生未知错误，请重试。".
Definition msgTransport : string :=
  "网络传输失败：视频文件可能过大，浏览器无法直接处理。请尝试压缩视频或仅使用【自定义主题】进行生成。".

(** [a > b] on numbers *)
Definition gt (a b : Q) : bool := negb (Qle_bool a b).

(** [a < b] on numbers *)
Definition lt (a b : Q) : bool := negb (Qle_bool b a).

(** ** The simulated progress effect: [useEffect(..., [status])] *)

(** The body of the effect, run after a render in which [status] changed;
    the cleanup of the previous run has cleared its interval. *)
Definition progressEffect (st : State) : State :=
  let st := setIntervalActive false st in
  match status st with
  | ANALYZING =>
      setIntervalActive true (setCurrentProgress 0%Q (setProgress 0%Q st))
  | COMPLETED => setProgress 100%Q st
  | ERROR | IDLE => setProgress 0%Q st
  | UPLOADING => st
  end.

(** One firing of the 150 ms interval; [random] is [Math.random()]. *)
Definition progressTick (random : Q) (st : State) : State :=
  if interval st then
    if lt (currentProgress st) 90%Q then
      let remaining := (95 - currentProgress st)%Q in
      let increment := Qmax 0.2%Q (remaining * 0.05 * random)%Q in
      let current := (currentProgress st + increment)%Q in
      setProgress (Qmin 95%Q current) (setCurrentProgress current st)
    else st
  else st.

(** ** Handlers *)

(** [handleFileChange]: [selected] is [e.target.files?.[0]], [newUrl] the
    value [URL.createObjectURL] returns for it. *)
Definition handleFileChange (selected : option File) (newUrl : string)
  (st : State) : State :=
  match selected with
  | Some selectedFile =>
      if negb (JsString.startsWith (type selectedFile) "video/") then
        setError (Some msgNotVideo) st
      else
        setStatus IDLE
          (setGeneratedHistory (fun _ => [])
             (setResult None
                (setError None
                   (setVideoUrl (Some newUrl)
                      (setFile (Some selectedFile) st)))))
  | None => st
  end.

Definition onVideoMetadataLoaded (duration : Q) (st : State) : State :=
  let st := setVideoDuration duration st in
  if gt duration 300%Q then setError (Some msgOverLimit) st else st.

Definition isSome {A} (o : option A) : bool :=
  match o with Some _ => true | None => false end.

(** What [handleAnalyze] hands to the service. *)
Definition Request : Type := (option File * GeminiService.AnalysisOptions)%type.

(** [handleAnalyze] up to its [await]: the two guards, then the move to
    [ANALYZING]; the request is [None] when a guard returned. *)
Definition submit (st : State) : State * option Request :=
  if negb (isSome (file st))
     && negb (JsString.truthy (JsString.trim (customInstruction st)))
  then (setError (Some msgNothingToAnalyze) st, None)
  else if isSome (file st) && gt (videoDuration st) 300%Q
  then (setError (Some msgOverLimitBlocked) st, None)
  else
    (setError None (setStatus ANALYZING st),
     Some (file st,
           GeminiService.mkOptions (customInstruction st) (targetDuration st)
             (generatedHistory st))).

(** The message shown for a rejected call. *)
Definition failureMessage (err : JsError) : string :=
  let errorMessage :=
    match GeminiService.message err with
    | Some (String _ _ as m) => m
    | _ => msgUnknown
    end in
  if JsString.includes errorMessage "Rpc failed"
     || JsString.includes errorMessage "xhr error"
     || JsString.includes errorMessage "code: 6"
  then msgTransport
  else errorMessage.

(** [handleAnalyze] after its [await]: the [try] continuation on a resolved
    call, the [catch] block on a rejected one. *)
Definition settle (outcome : JsError + AnalysisResult) (st : State) : State :=
  match outcome with
  | inr analysisResult =>
      setStatus COMPLETED
        (setGeneratedHistory
           (fun prev => prev ++ generatedQuotes analysisResult)%list
           (setResult (Some analysisResult) st))
  | inl err =>
      setStatus ERROR (setError (Some (failureMessage err)) st)
  end.

Definition fullReset (st : State) : State :=
  setGeneratedHistory (fun _ => [])
    (setCustomInstruction ""
       (setStatus IDLE
          (setResult None
             (setVideoUrl None
                (setFile None st))))).

Definition reupload (st : State) : State :=
  setGeneratedHistory (fun _ => [])
    (setVideoUrl None
       (setFile None st)).

Definition handleTopicClick (topic : string) (st : State) : State :=
  setGeneratedHistory (fun _ => [])
    (setCustomInstruction topic st).

(** The [onChange] of the topic text field. *)
Definition onTopicInput (value : string) (st : State) : State :=
  setCustomInstruction value st.

(** ** Renders *)

(** After a handler, the component renders and the progress effect runs
    when [status] differs from the previous render's. *)
Definition commit (previous : AnalysisStatus) (st : State) : State :=
  if AnalysisStatus_eqb previous (status st) then st else progressEffect st.

Definition render (handler : State -> State) (st : State) : State :=
  commit (status st) (handler st).

(** What can happen to the component. [AnalyzeClick] is [handleAnalyze] up
    to its [await] and [Settled] its continuation, so that other events may
    fall between the two; [AnotherSetClick] is [handleAnotherSet], which
    only calls [handleAnalyze]. *)
Inductive Event : Type :=
  | FileChange (selected : option File) (newUrl : string)
  | VideoMetadataLoaded (duration : Q)
  | AnalyzeClick
  | AnotherSetClick
  | Settled (outcome : JsError + AnalysisResult)
  | FullResetClick
  | ReuploadClick
  | TopicClick (topic : string)
  | TopicInput (value : string)
  | DurationClick (d : DurationOption)
  | ProgressTick (random : Q).

Definition handler (e : Event) : State -> State :=
  match e with
  | FileChange selected newUrl => handleFileChange selected newUrl
  | VideoMetadataLoaded duration => onVideoMetadataLoaded duration
  | AnalyzeClick | AnotherSetClick => fun st => fst (submit st)
  | Settled outcome => settle outcome
  | FullResetClick => fullReset
  | ReuploadClick => reupload
  | TopicClick topic => handleTopicClick topic
  | TopicInput value => onTopicInput value
  | DurationClick d => setTargetDuration d
  | ProgressTick random => progressTick random
  end.

Definition step (e : Event) (st : State) : State := render (handler e) st.

Definition run (events : list Event) (st : State) : State :=
  fold_left (fun s e => step e s) events st.

(** The states the component can be in: those some sequence of events
    leads to from the first render. *)
Definition reachable (st : State) : Prop :=
  exists events, st = run events init.

(** [handleAnalyze] from click to settlement when nothing falls in between:
    the guards, the render that shows [ANALYZING], the service call against
    the world, the continuation and its render. *)
Definition handleAnalyze (env : GeminiService.Env) (st : State)
  (w : GeminiService.World) : State * GeminiService.World :=
  match submit st with
  | (st1, None) => (commit (status st) st1, w)
  | (st1, Some (videoFile, options)) =>
      let st2 := commit (status st) st1 in
      match GeminiService.analyzeVideoAndGenerateQuotes env videoFile options w with
      | (w', outcome) => (render (settle outcome) st2, w')
      end
  end.

(** [handleAnotherSet] *)
Definition handleAnotherSet := handleAnalyze.

End VideoAnalyzer.

(* ================================================================== *)
(** * components/QuoteLibrary *)
(* ================================================================== *)

Module QuoteLibrary.

Import Types.
Local Open Scope string_scope.

(** The successive values of [Math.random()]. *)
Definition Random : Type := nat -> Q.

Record State : Type := mkState {
  searchTerm : string;
  selectedCategory : Category;
  visibleQuotes : list Quote;
  timeRemaining : Z
}.

Definition init : State :=
  {| searchTerm := ""; selectedCategory := CatAll; visibleQuotes := [];
     timeRemaining := 120 |}.

Definition setSearchTerm (v : string) (st : State) : State :=
  mkState v (selectedCategory st) (visibleQuotes st) (timeRemaining st).

Definition setSelectedCategory (v : Category) (st : State) : State :=
  mkState (searchTerm st) v (visibleQuotes st) (timeRemaining st).

Definition setVisibleQuotes (v : list Quote) (st : State) : State :=
  mkState (searchTerm st) (selectedCategory st) v (timeRemaining st).

Definition setTimeRemaining (v : Z) (st : State) : State :=
  mkState (searchTerm st) (selectedCategory st) (visibleQuotes st) v.

(** [arr.slice(0, n)] *)
Definition slice0 {A} (n : nat) (arr : list A) : list A := firstn n arr.

Section Component.

(** [BUILT_IN_QUOTES] comes from [utils/constants], which is not part of
    the sources at hand. *)
Variable BUILT_IN_QUOTES : list Quote.

(** [String.prototype.toLowerCase], by the engine's Unicode tables. *)
Variable toLowerCase : string -> string.

(** [[...pool].sort(() => 0.5 - Math.random())]: the engine's sort run on a
    copy of [pool] with a comparator that ignores its arguments and answers
    from the random source. *)
Variable sortRandomly : Random -> list Quote -> list Quote.

(** The records [refreshQuotes] draws from. *)
Definition pool (selected : Category) : list Quote :=
  if negb (Category_eqb selected CatAll) then
    filter (fun q => Category_eqb (category q) selected) BUILT_IN_QUOTES
  else BUILT_IN_QUOTES.

Definition refreshQuotes (random : Random) (st : State) : State :=
  let shuffled := sortRandomly random (pool (selectedCategory st)) in
  setTimeRemaining 120 (setVisibleQuotes (slice0 8 shuffled) st).

(** The first render: the mount effect calls [refreshQuotes]. *)
Definition mount (random : Random) : State := refreshQuotes random init.

(** [handleCategoryChange], with the effect on [[refreshQuotes]], which
    runs when [selectedCategory] has changed. *)
Definition handleCategoryChange (random : Random) (cat : Category)
  (st : State) : State :=
  if Category_eqb cat (selectedCategory st) then st
  else refreshQuotes random (setSelectedCategory cat st).

(** One firing of the one-second interval. *)
Definition timerTick (random : Random) (st : State) : State :=
  if (timeRemaining st <=? 1)%Z then
    setTimeRemaining 120 (refreshQuotes random st)
  else setTimeRemaining (timeRemaining st - 1) st.

(** The [onChange] of the search field. *)
Definition onSearchInput (value : string) (st : State) : State :=
  setSearchTerm value st.

Definition displayQuotes (st : State) : list Quote :=
  if JsString.truthy (searchTerm st) then
    filter
      (fun q =>
         JsString.includes (toLowerCase (text q)) (toLowerCase (searchTerm st)))
      BUILT_IN_QUOTES
  else visibleQuotes st.

Inductive Event : Type :=
  | CategoryClick (cat : Category) (random : Random)
  | RefreshClick (random : Random)
  | TimerTick (random : Random)
  | SearchInput (value : string).

Definition step (e : Event) (st : State) : State :=
  match e with
  | CategoryClick cat random => handleCategoryChange random cat st
  | RefreshClick random => refreshQuotes random st
  | TimerTick random => timerTick random st
  | SearchInput value => onSearchInput value st
  end.

Definition run (events : list Event) (st : State) : State :=
  fold_left (fun s e => step e s) events st.

End Component.

(** ** A sort to run the component with *)

(** Insertion from the front: [x] moves past [y] when the comparator
    answers that [y] goes first, that is when [0.5 - Math.random()] is
    negative for the pair; [k] counts the draws. *)
Fixpoint insertRandomly {A} (random : Random) (k : nat) (x : A) (l : list A)
  : list A * nat :=
  match l with
  | [] => ([x], k)
  | y :: rest =>
      if Qle_bool (random k) 0.5%Q then (x :: y :: rest, S k)
      else
        let (rest', k') := insertRandomly random (S k) x rest in
        (y :: rest', k')
  end.

Fixpoint insertionSortFrom {A} (random : Random) (k : nat) (l : list A)
  : list A * nat :=
  match l with
  | [] => ([], k)
  | x :: rest =>
      let (sorted, k') := insertionSortFrom random k rest in
      insertRandomly random k' x sorted
  end.

Definition insertionSortRandomly {A} (random : Random) (l : list A) : list A :=
  fst (insertionSortFrom random 0 l).

End QuoteLibrary.

(* ================================================================== *)
(** * Properties: strings *)
(* ================================================================== *)

Module JsStringFacts.

Import JsString.
Local Open Scope string_scope.

Lemma prefix_app (p s : string) :
  String.prefix p s = true <-> exists post, s = p ++ post.
Proof.
  revert s; induction p as [|a p IH]; intros s.
  - split; [intros _; exists s; reflexivity | intros _; destruct s; reflexivity].
  - destruct s as [|b s]; simpl.
    + split; [discriminate | intros [post H]; discriminate].
    + destruct (Ascii.ascii_dec a b) as [->|Hab].
      * rewrite IH. split; intros [post H]; exists post.
        -- now rewrite H.
        -- now inversion H.
      * split; [discriminate | intros [post H]; inversion H; congruence].
Qed.

(** [includes] finds exactly the occurrences: [sub] occurs in [s] when [s]
    is some text, then [sub], then some text. *)
Lemma includes_occurs (s sub : string) :
  includes s sub = true <-> exists pre post, s = pre ++ sub ++ post.
Proof.
  induction s as [|a s IH]; cbn [includes].
  - rewrite orb_false_r, prefix_app. split.
    + intros [post H]. exists "", post. exact H.
    + intros [pre [post H]]. destruct pre; [|discriminate].
      exists post. exact H.
  - rewrite orb_true_iff, prefix_app, IH. split.
    + intros [[post H] | [pre [post H]]].
      * exists "", post. exact H.
      * exists (String a pre), post. simpl. now rewrite H.
    + intros [pre [post H]]. destruct pre as [|b pre]; simpl in H.
      * left. exists post. exact H.
      * right. inversion H; subst. exists pre, post. reflexivity.
Qed.

Lemma truthy_nonempty (s : string) : truthy s = true <-> s <> "".
Proof.
  unfold truthy. rewrite negb_true_iff. split.
  - intros H ->. discriminate.
  - intros H. apply String.eqb_neq. exact H.
Qed.

Lemma truthy_empty (s : string) : truthy s = false <-> s = "".
Proof.
  unfold truthy. rewrite negb_false_iff. apply String.eqb_eq.
Qed.

End JsStringFacts.

(* ================================================================== *)
(** * Properties: the retrying transport *)
(* ================================================================== *)

Module RetryFacts.

Import Types GeminiService.

(** The log of a call that was retried [n] times, starting with [retries]
    attempts left: the first call, then [n] times a warning, the two-second
    timer and the next call. *)
Fixpoint retryLog (params : GenerateParams) (retries n : nat) : list IOEvent :=
  match n with
  | O => [EvGenerateContent params]
  | S n' =>
      EvGenerateContent params :: EvConsoleWarn retries :: EvSetTimeout 2000 ::
      retryLog params (Nat.pred retries) n'
  end.

Lemma calls_app (w1 w2 : World) : calls (w1 ++ w2) = calls w1 + calls w2.
Proof. unfold calls. now rewrite filter_app, length_app. Qed.

Lemma calls_retryLog (params : GenerateParams) (retries n : nat) :
  calls (retryLog params retries n) = S n.
Proof.
  revert retries; induction n as [|n IH]; intros retries; [reflexivity|].
  cbn [retryLog]. change (calls (?a :: ?b :: ?c :: ?l)) with (S (calls l)).
  now rewrite IH.
Qed.

(** The sleeps of a log are all of 2000 ms. *)
Definition fixedDelay (ev : IOEvent) : Prop :=
  match ev with EvSetTimeout ms => ms = 2000 | _ => True end.

Lemma retryLog_fixedDelay (params : GenerateParams) (retries n : nat) :
  Forall fixedDelay (retryLog params retries n).
Proof.
  revert retries; induction n as [|n IH]; intros retries; cbn [retryLog].
  - repeat constructor.
  - repeat (constructor; [exact I || reflexivity|]). apply IH.
Qed.

(** What [generateWithRetry] does, for any number of allowed retries: it
    makes [n + 1] calls with [n <= retries]; the first [n] failed with a
    retryable error, each followed by the two-second timer; the outcome is
    that of the last call, which, when retries were left, was a success or
    a failure that is not retryable. *)
Lemma generateWithRetry_run (env : Env) (params : GenerateParams)
  (retries : nat) (w : World) :
  exists n,
    n <= retries /\
    generateWithRetry env params retries w =
      (w ++ retryLog params retries n,
       generateContent env (calls w + n) params) /\
    (forall i, i < n ->
       exists e, generateContent env (calls w + i) params = inl e /\
                 retryable e = true) /\
    (n < retries ->
       forall e, generateContent env (calls w + n) params = inl e ->
                 retryable e = false).
Proof.
  revert w; induction retries as [|r IH]; intros w.
  - exists 0. rewrite Nat.add_0_r. repeat split; try lia.
    cbn. unfold tryCatch, callGenerateContent.
    destruct (generateContent env (calls w) params); reflexivity.
  - cbn [generateWithRetry]. unfold tryCatch at 1. unfold callGenerateContent at 1.
    destruct (generateContent env (calls w) params) as [e|resp] eqn:Hcall.
    + destruct (retryable e) eqn:Hretry.
      * set (w1 := (w ++ [EvGenerateContent params])).
        destruct (IH (w1 ++ [EvConsoleWarn (S r)] ++ [EvSetTimeout 2000]))
          as (n & Hn & Hrun & Hpast & Hlast).
        assert (Hcalls : calls (w1 ++ [EvConsoleWarn (S r)] ++ [EvSetTimeout 2000])
                         = S (calls w)).
        { unfold w1. rewrite !calls_app. cbn. lia. }
        rewrite Hcalls in *.
        exists (S n). split; [lia|]. split; [|split].
        -- unfold bind, emit. cbn [fst snd].
           replace ((w1 ++ [EvConsoleWarn (S r)]) ++ [EvSetTimeout 2000])
             with (w1 ++ [EvConsoleWarn (S r)] ++ [EvSetTimeout 2000])
             by now rewrite app_assoc.
           rewrite Hrun. unfold w1. cbn [retryLog Nat.pred].
           rewrite <- !app_assoc. cbn [app].
           now rewrite Nat.add_succ_r.
        -- intros [|i] Hi.
           ++ exists e. now rewrite Nat.add_0_r.
           ++ rewrite Nat.add_succ_r. apply Hpast. lia.
        -- intros Hlt e' He'. rewrite Nat.add_succ_r in He'.
           apply Hlast; [lia | exact He'].
      * exists 0. rewrite Nat.add_0_r. repeat split; try lia.
        -- now rewrite Hcall.
        -- intros _ e' He'. congruence.
    + exists 0. rewrite Nat.add_0_r. repeat split; try lia.
      * now rewrite Hcall.
      * intros _ e' He'. congruence.
Qed.

(** The two lists of signatures differ: a failure whose message says
    "xhr error" is rewritten for the user by [handleAnalyze] and is not
    retried by the transport; one that says "503" is retried. *)
Lemma retryable_signatures :
  retryable (Error "exception posting request: xhr error") = false /\
  retryable (Error "got status: 503 UNAVAILABLE") = true /\
  retryable (Error "Rpc failed due to xhr error") = true /\
  retryable (mkError None) = false.
Proof. repeat split. Qed.

(** C1. With the default of two retries, a request makes at most three
    calls: each call that failed with a retryable error (its message
    includes "Rpc failed" or "503") is followed by the 2000 ms timer and
    another call, at most twice; the outcome is that of the last call made.
    Spelled out by attempt: a first call that fails with any other error
    makes the request fail with that error at once, the log showing that
    one call alone; so does a second call after one retry; the outcome of a
    third call is final whatever it is. *)
Theorem generateWithRetry_policy (env : Env) (params : GenerateParams)
  (w : World) :
  (exists n,
     n <= 2 /\
     generateWithRetry env params defaultRetries w =
       (w ++ retryLog params 2 n, generateContent env (calls w + n) params) /\
     calls (fst (generateWithRetry env params defaultRetries w))
       = calls w + n + 1 /\
     Forall fixedDelay (retryLog params 2 n) /\
     (forall i, i < n ->
        exists e, generateContent env (calls w + i) params = inl e /\
                  retryable e = true) /\
     (n < 2 ->
        forall e, generateContent env (calls w + n) params = inl e ->
                  retryable e = false)) /\
  (forall e,
     generateContent env (calls w) params = inl e -> retryable e = false ->
     generateWithRetry env params defaultRetries w =
       (w ++ [EvGenerateContent params], inl e)) /\
  (forall e0 e1,
     generateContent env (calls w) params = inl e0 -> retryable e0 = true ->
     generateContent env (calls w + 1) params = inl e1 -> retryable e1 = false ->
     generateWithRetry env params defaultRetries w =
       (w ++ [EvGenerateContent params; EvConsoleWarn 2; EvSetTimeout 2000;
              EvGenerateContent params], inl e1)) /\
  (forall e0 e1,
     generateContent env (calls w) params = inl e0 -> retryable e0 = true ->
     generateContent env (calls w + 1) params = inl e1 -> retryable e1 = true ->
     generateWithRetry env params defaultRetries w =
       (w ++ [EvGenerateContent params; EvConsoleWarn 2; EvSetTimeout 2000;
              EvGenerateContent params; EvConsoleWarn 1; EvSetTimeout 2000;
              EvGenerateContent params],
        generateContent env (calls w + 2) params)).
Proof.
  destruct (generateWithRetry_run env params 2 w)
    as (n & Hn & Hrun & Hpast & Hlast).
  unfold defaultRetries. rewrite Hrun. cbn [fst].
  split; [|split; [|split]].
  - exists n. repeat split; auto.
    + rewrite calls_app, calls_retryLog. lia.
    + apply retryLog_fixedDelay.
  - intros e Hcall Hfatal.
    destruct n as [|n].
    + rewrite Nat.add_0_r, Hcall. reflexivity.
    + destruct (Hpast 0 ltac:(lia)) as (e' & He' & Hr).
      rewrite Nat.add_0_r in He'. congruence.
  - intros e0 e1 H0 Hr0 H1 Hr1.
    destruct n as [|[|n]].
    + rewrite Nat.add_0_r in Hlast.
      rewrite (Hlast ltac:(lia) e0 H0) in Hr0. discriminate.
    + rewrite H1. reflexivity.
    + destruct (Hpast 1 ltac:(lia)) as (e' & He' & Hr). congruence.
  - intros e0 e1 H0 Hr0 H1 Hr1.
    destruct n as [|[|[|n]]]; [| | reflexivity | lia].
    + rewrite Nat.add_0_r in Hlast.
      rewrite (Hlast ltac:(lia) e0 H0) in Hr0. discriminate.
    + rewrite (Hlast ltac:(lia) e1 H1) in Hr1. discriminate.
Qed.

End RetryFacts.

(* ================================================================== *)
(** * Properties: submission and the duplicate-avoidance history *)
(* ================================================================== *)

Module VideoAnalyzerFacts.

Import Types VideoAnalyzer.
Local Open Scope string_scope.

Lemma AnalysisStatus_eqb_eq (a b : AnalysisStatus) :
  AnalysisStatus_eqb a b = true <-> a = b.
Proof. destruct a, b; simpl; split; congruence. Qed.

Lemma AnalysisStatus_eqb_refl (a : AnalysisStatus) : AnalysisStatus_eqb a a = true.
Proof. now apply AnalysisStatus_eqb_eq. Qed.

Lemma commit_same (st : State) : commit (status st) st = st.
Proof. unfold commit. now rewrite AnalysisStatus_eqb_refl. Qed.

Lemma gt_iff (a b : Q) : gt a b = true <-> (b < a)%Q.
Proof.
  unfold gt. rewrite negb_true_iff. split.
  - intros H. apply Qnot_le_lt. intros Hle.
    apply Qle_bool_iff in Hle. congruence.
  - intros H. destruct (Qle_bool a b) eqn:E; [|reflexivity].
    apply Qle_bool_iff in E. exfalso. exact (Qlt_not_le _ _ H E).
Qed.

Lemma lt_iff (a b : Q) : lt a b = true <-> (a < b)%Q.
Proof. apply (gt_iff b a). Qed.

Lemma isSome_false {A} (o : option A) : isSome o = false <-> o = None.
Proof. destruct o; simpl; split; congruence. Qed.

Lemma isSome_true {A} (o : option A) : isSome o = true <-> o <> None.
Proof. destruct o; simpl; split; congruence. Qed.

(** The request [handleAnalyze] builds from a state. *)
Definition requestOf (st : State) : Request :=
  (file st,
   GeminiService.mkOptions (customInstruction st) (targetDuration st)
     (generatedHistory st)).

(** [handleAnalyze] returned from one of its two guards. *)
Definition rejected (st : State) : Prop := snd (submit st) = None.

Definition mediaAbsent (st : State) : Prop := file st = None.

Definition topicAbsent (st : State) : Prop :=
  JsString.trim (customInstruction st) = "".

Definition overLimit (st : State) : Prop :=
  file st <> None /\ (300 < videoDuration st)%Q.

(** The three ways through [submit]. *)
Lemma submit_cases (st : State) :
  (mediaAbsent st /\ topicAbsent st /\
   submit st = (setError (Some msgNothingToAnalyze) st, None)) \/
  (overLimit st /\
   submit st = (setError (Some msgOverLimitBlocked) st, None)) \/
  (~ (mediaAbsent st /\ topicAbsent st) /\ ~ overLimit st /\
   submit st = (setError None (setStatus ANALYZING st), Some (requestOf st))).
Proof.
  unfold submit, mediaAbsent, topicAbsent, overLimit, requestOf.
  destruct (isSome (file st)) eqn:Hfile; cbn [negb andb].
  - apply isSome_true in Hfile.
    destruct (gt (videoDuration st) 300) eqn:Hgt.
    + right; left. apply gt_iff in Hgt. auto.
    + right; right. repeat split.
      * intros [H _]. contradiction.
      * intros [_ H]. apply gt_iff in H. congruence.
  - apply isSome_false in Hfile.
    destruct (JsString.truthy (JsString.trim (customInstruction st))) eqn:Htopic;
      cbn [negb].
    + right; right. apply JsStringFacts.truthy_nonempty in Htopic.
      repeat split.
      * intros [_ H]. contradiction.
      * intros [H _]. contradiction.
    + left. apply JsStringFacts.truthy_empty in Htopic. auto.
Qed.

(** A state the component reaches: a video of 301 seconds is loaded and a
    topic is typed. *)
Definition clip : File := mkFile "clip.mp4" "video/mp4" 1048576.

Definition overLimitWithTopic : State :=
  run [FileChange (Some clip) "blob:1"; VideoMetadataLoaded 301%Q;
       TopicInput "房贷"] init.

(** C2, as the claim states it, fails: with a video of 301 seconds loaded
    and a topic typed, neither input is absent, and [handleAnalyze] returns
    from its duration guard without a request. *)
Lemma submit_rejects_iff_both_absent_fails :
  rejected overLimitWithTopic /\
  ~ (mediaAbsent overLimitWithTopic /\ topicAbsent overLimitWithTopic).
Proof.
  split.
  - reflexivity.
  - intros [H _]. discriminate H.
Qed.

(** C2, amended. [handleAnalyze] returns from a guard, having set a
    validation message and left [status] and the world untouched, exactly
    when the video and the trimmed topic are both absent, or a video is
    loaded whose recorded duration exceeds 300 seconds. Otherwise it moves
    to [ANALYZING], clears the message and calls the service with the
    file, the topic, the length and the history. *)
Theorem submit_rejects_iff (st : State) :
  (rejected st <-> (mediaAbsent st /\ topicAbsent st) \/ overLimit st) /\
  (rejected st ->
     status (fst (submit st)) = status st /\
     (error (fst (submit st)) = Some msgNothingToAnalyze \/
      error (fst (submit st)) = Some msgOverLimitBlocked) /\
     forall env w, snd (handleAnalyze env st w) = w) /\
  (~ rejected st ->
     snd (submit st) = Some (requestOf st) /\
     status (fst (submit st)) = ANALYZING /\
     error (fst (submit st)) = None /\
     forall env w,
       snd (handleAnalyze env st w) =
       fst (GeminiService.analyzeVideoAndGenerateQuotes env (file st)
              (snd (requestOf st)) w)).
Proof.
  unfold rejected, handleAnalyze.
  destruct (submit_cases st) as [(Hm & Ht & ->) | [(Ho & ->) | (Hn & Ho & ->)]];
    cbn [fst snd].
  - repeat split; auto; congruence.
  - repeat split; auto; congruence.
  - split; [|split].
    + split; [discriminate|]. intros [H|H]; contradiction.
    + discriminate.
    + intros _. repeat split.
      intros env w. unfold requestOf. cbn [fst snd].
      now destruct (GeminiService.analyzeVideoAndGenerateQuotes _ _ _ _).
Qed.

(** The service itself does not refuse a request with neither video nor
    topic: it writes the fallback theme into the prompt. *)
Lemma promptTopic_fallback (d : GeminiService.DurationOption)
  (avoid : list string) :
  GeminiService.promptTopic false (GeminiService.mkOptions "" d avoid) =
  GeminiService.nl ++ GeminiService.nl ++
  "【创作主题】：请自由发挥，关于成年人的生活压力，房贷，车贷，工作。".
Proof. reflexivity. Qed.

(** ** The history *)

Lemma submit_history (st : State) :
  generatedHistory (fst (submit st)) = generatedHistory st.
Proof.
  destruct (submit_cases st) as [(_ & _ & ->) | [(_ & ->) | (_ & _ & ->)]];
    reflexivity.
Qed.

Lemma commit_history (previous : AnalysisStatus) (st : State) :
  generatedHistory (commit previous st) = generatedHistory st.
Proof.
  unfold commit. destruct (AnalysisStatus_eqb previous (status st)); [reflexivity|].
  destruct st as [s ? ? ? ? ? ? ? ? ? ? ?]; destruct s; reflexivity.
Qed.

Lemma commit_status (previous : AnalysisStatus) (st : State) :
  status (commit previous st) = status st.
Proof.
  unfold commit. destruct (AnalysisStatus_eqb previous (status st)); [reflexivity|].
  destruct st as [s ? ? ? ? ? ? ? ? ? ? ?]; destruct s; reflexivity.
Qed.

Lemma settle_history (outcome : JsError + AnalysisResult) (st : State) :
  generatedHistory (settle outcome st) =
  match outcome with
  | inr r => generatedHistory st ++ generatedQuotes r
  | inl _ => generatedHistory st
  end%list.
Proof. destruct outcome; reflexivity. Qed.

Lemma step_settled_ok (r : AnalysisResult) (s : State) :
  generatedHistory (step (Settled (inr r)) s)
    = (generatedHistory s ++ generatedQuotes r)%list /\
  status (step (Settled (inr r)) s) = COMPLETED /\
  result (step (Settled (inr r)) s) = Some r.
Proof.
  unfold step, render. cbn [handler].
  rewrite commit_history, commit_status.
  destruct s as [s0 ? ? ? ? ? ? ? ? ? ? ?]; unfold commit; cbn.
  destruct s0; auto.
Qed.

Lemma step_settled_failed (e : JsError) (s : State) :
  generatedHistory (step (Settled (inl e)) s) = generatedHistory s /\
  status (step (Settled (inl e)) s) = ERROR.
Proof.
  unfold step, render. cbn [handler].
  rewrite commit_history, commit_status. auto.
Qed.

(** The history after [handleAnalyze] run from click to settlement, by
    the way it went. *)
Lemma handleAnalyze_history (env : GeminiService.Env) (st : State)
  (w : GeminiService.World) :
  match snd (submit st) with
  | None =>
      generatedHistory (fst (handleAnalyze env st w)) = generatedHistory st
  | Some (videoFile, options) =>
      match snd (GeminiService.analyzeVideoAndGenerateQuotes
                   env videoFile options w) with
      | inr r =>
          generatedHistory (fst (handleAnalyze env st w))
            = (generatedHistory st ++ generatedQuotes r)%list /\
          status (fst (handleAnalyze env st w)) = COMPLETED
      | inl _ =>
          generatedHistory (fst (handleAnalyze env st w)) = generatedHistory st /\
          status (fst (handleAnalyze env st w)) = ERROR
      end
  end.
Proof.
  unfold handleAnalyze. pose proof (submit_history st) as Hsub.
  destruct (submit st) as [st1 [[videoFile options]|]]; cbn [fst snd] in *.
  - destruct (GeminiService.analyzeVideoAndGenerateQuotes env videoFile options w)
      as [w' [e|r]]; cbn [fst snd]; unfold render;
      rewrite commit_history, commit_status, settle_history,
        commit_history, Hsub; auto.
  - now rewrite commit_history.
Qed.

(** C3. A generation that succeeds leaves the history equal to what it was
    with the new quotes appended in order; one that fails, or a submission
    that a guard returned, leaves the history as it was. This holds for the
    continuation of [handleAnalyze] from whatever state it lands in, and
    for [handleAnalyze] run from click to settlement. *)
Theorem history_appended_on_success (env : GeminiService.Env) (st : State)
  (w : GeminiService.World) :
  (forall r s,
     generatedHistory (step (Settled (inr r)) s)
       = (generatedHistory s ++ generatedQuotes r)%list /\
     status (step (Settled (inr r)) s) = COMPLETED /\
     result (step (Settled (inr r)) s) = Some r) /\
  (forall e s,
     generatedHistory (step (Settled (inl e)) s) = generatedHistory s /\
     status (step (Settled (inl e)) s) = ERROR) /\
  generatedHistory (step AnalyzeClick st) = generatedHistory st /\
  match snd (submit st) with
  | None =>
      generatedHistory (fst (handleAnalyze env st w)) = generatedHistory st
  | Some (videoFile, options) =>
      match snd (GeminiService.analyzeVideoAndGenerateQuotes
                   env videoFile options w) with
      | inr r =>
          generatedHistory (fst (handleAnalyze env st w))
            = (generatedHistory st ++ generatedQuotes r)%list /\
          status (fst (handleAnalyze env st w)) = COMPLETED
      | inl _ =>
          generatedHistory (fst (handleAnalyze env st w)) = generatedHistory st /\
          status (fst (handleAnalyze env st w)) = ERROR
      end
  end.
Proof.
  split; [|split; [|split]].
  - apply step_settled_ok.
  - apply step_settled_failed.
  - unfold step, render. cbn [handler].
    now rewrite commit_history, submit_history.
  - apply handleAnalyze_history.
Qed.

(** C4. The history is empty at the first render, after a video file is
    accepted, after a topic chip is clicked and after a full reset.
    [handleAnotherSet] does not clear it: its submission leaves the history
    as it was and, when it passes the guards, carries the whole history as
    [avoidQuotes], which the service writes into the prompt when it is not
    empty. *)
Theorem history_reset_points (st : State) :
  generatedHistory init = [] /\
  (forall f url,
     JsString.startsWith (type f) "video/" = true ->
     generatedHistory (step (FileChange (Some f) url) st) = []) /\
  (forall topic, generatedHistory (step (TopicClick topic) st) = []) /\
  generatedHistory (step FullResetClick st) = [] /\
  generatedHistory (step AnotherSetClick st) = generatedHistory st /\
  (forall request,
     snd (submit st) = Some request ->
     GeminiService.avoidQuotes (snd request) = generatedHistory st) /\
  (forall env w,
     exists added,
       generatedHistory (fst (handleAnotherSet env st w))
         = (generatedHistory st ++ added)%list) /\
  (forall env d topic,
     generatedHistory st <> [] ->
     GeminiService.promptAvoid env
       (GeminiService.mkOptions topic d (generatedHistory st)) =
     GeminiService.nl ++ GeminiService.nl ++
     "【禁止重复】：请务必【不要】生成与以下内容雷同的语录，必须尝试新的切入点、风格或修辞：" ++
     GeminiService.nl ++
     GeminiService.JSON_stringify env (generatedHistory st)).
Proof.
  repeat split.
  - intros f url Hvideo. unfold step, render. rewrite commit_history.
    cbn [handler handleFileChange]. now rewrite Hvideo.
  - intros topic. unfold step, render. now rewrite commit_history.
  - unfold step, render. now rewrite commit_history.
  - unfold step, render. cbn [handler].
    now rewrite commit_history, submit_history.
  - intros request Hreq.
    destruct (submit_cases st) as [(_ & _ & H) | [(_ & H) | (_ & _ & H)]];
      rewrite H in Hreq; cbn [snd] in Hreq; try discriminate.
    injection Hreq as <-. reflexivity.
  - intros env w.
    pose proof (handleAnalyze_history env st w) as H.
    unfold handleAnotherSet.
    destruct (snd (submit st)) as [[videoFile options]|].
    + destruct (snd (GeminiService.analyzeVideoAndGenerateQuotes
                       env videoFile options w)) as [e|r].
      * exists []. rewrite app_nil_r. apply H.
      * exists (generatedQuotes r). apply H.
    + exists []. rewrite app_nil_r. exact H.
  - intros env d topic Hne. unfold GeminiService.promptAvoid.
    cbn [GeminiService.avoidQuotes].
    destruct (generatedHistory st); [contradiction | reflexivity].
Qed.

(** A state the component reaches: a topic was typed and one generation
    succeeded, so three quotes are in the history. *)
Definition afterOneGeneration : State :=
  run [TopicInput "房贷"; AnalyzeClick;
       Settled (inr (mkAnalysisResult "摘要" ["一"; "二"; "三"]))] init.

(** C5, as the claim states it, fails: typing another topic into the text
    field keeps the three quotes in the history, and the next request
    carries them as [avoidQuotes]. *)
Lemma topic_edit_keeps_history :
  customInstruction (step (TopicInput "车贷") afterOneGeneration)
    <> customInstruction afterOneGeneration /\
  generatedHistory (step (TopicInput "车贷") afterOneGeneration)
    = ["一"; "二"; "三"] /\
  option_map (fun request => GeminiService.avoidQuotes (snd request))
    (snd (submit (step (TopicInput "车贷") afterOneGeneration)))
    = Some ["一"; "二"; "三"].
Proof.
  split; [|split].
  - intros H. discriminate H.
  - reflexivity.
  - reflexivity.
Qed.

(** C5, amended. A click on a suggested-topic chip sets the topic and
    empties the history, so the next request carries an empty
    [avoidQuotes]; an edit of the topic text field sets the topic and
    leaves the history, and everything else, as it was. *)
Theorem topic_change_and_history (st : State) (topic value : string) :
  customInstruction (step (TopicClick topic) st) = topic /\
  generatedHistory (step (TopicClick topic) st) = [] /\
  (forall request,
     snd (submit (step (TopicClick topic) st)) = Some request ->
     GeminiService.avoidQuotes (snd request) = []) /\
  step (TopicInput value) st = setCustomInstruction value st /\
  customInstruction (step (TopicInput value) st) = value /\
  generatedHistory (step (TopicInput value) st) = generatedHistory st.
Proof.
  assert (Hclick : step (TopicClick topic) st = handleTopicClick topic st).
  { unfold step, render. cbn [handler]. apply (commit_same (handleTopicClick topic st)). }
  assert (Hinput : step (TopicInput value) st = setCustomInstruction value st).
  { unfold step, render. cbn [handler]. apply (commit_same (onTopicInput value st)). }
  rewrite Hclick, Hinput. repeat split.
  intros request Hreq.
  destruct (submit_cases (handleTopicClick topic st))
    as [(_ & _ & H) | [(_ & H) | (_ & _ & H)]];
    rewrite H in Hreq; cbn [snd] in Hreq; try discriminate.
  injection Hreq as <-. reflexivity.
Qed.

(** C10. A selected file whose mime type does not start with "video/"
    makes [handleFileChange] set the error message and nothing else: the
    loaded file, its preview URL, the result, the history and the status
    stay as they were, and so does every other cell. *)
Theorem non_video_sets_only_error (st : State) (f : File) (url : string) :
  JsString.startsWith (type f) "video/" = false ->
  step (FileChange (Some f) url) st = setError (Some msgNotVideo) st /\
  error (step (FileChange (Some f) url) st) = Some msgNotVideo /\
  file (step (FileChange (Some f) url) st) = file st /\
  videoUrl (step (FileChange (Some f) url) st) = videoUrl st /\
  result (step (FileChange (Some f) url) st) = result st /\
  generatedHistory (step (FileChange (Some f) url) st) = generatedHistory st /\
  status (step (FileChange (Some f) url) st) = status st.
Proof.
  intros Hnot.
  assert (H : step (FileChange (Some f) url) st = setError (Some msgNotVideo) st).
  { unfold step, render. cbn [handler handleFileChange]. rewrite Hnot.
    cbn [negb]. apply (commit_same (setError (Some msgNotVideo) st)). }
  rewrite H. repeat split.
Qed.

Definition picture : File := mkFile "cover.png" "image/png" 2048.

(** A picture picked after one generation: the message is set and the
    three quotes stay in the history. *)
Lemma non_video_sets_only_error_witness :
  step (FileChange (Some picture) "blob:2") afterOneGeneration
    = setError (Some msgNotVideo) afterOneGeneration /\
  generatedHistory (step (FileChange (Some picture) "blob:2") afterOneGeneration)
    = ["一"; "二"; "三"].
Proof.
  destruct (non_video_sets_only_error afterOneGeneration picture "blob:2"
              eq_refl) as (H1 & _ & _ & _ & _ & H2 & _).
  split; [exact H1 | exact H2].
Defined.

End VideoAnalyzerFacts.

(* ================================================================== *)
(** * Properties: the simulated progress *)
(* ================================================================== *)

Module ProgressFacts.

Import Types VideoAnalyzer VideoAnalyzerFacts.
Local Open Scope string_scope.

(** What holds of the progress cells after every render. While
    [ANALYZING] the interval is set and the shown value lies between 0 and
    95 and below the closure variable; in every other status the interval
    is cleared and the shown value is the one the effect wrote. *)
Definition progressInv (st : State) : Prop :=
  match status st with
  | ANALYZING =>
      interval st = true /\
      (0 <= progress st)%Q /\ (progress st <= 95)%Q /\
      (progress st <= currentProgress st)%Q
  | COMPLETED => interval st = false /\ progress st = 100%Q
  | IDLE | ERROR => interval st = false /\ progress st = 0%Q
  | UPLOADING => False
  end.

(** A handler that leaves the progress cells alone and never moves to
    [UPLOADING]. *)
Definition framesProgress (h : State -> State) : Prop :=
  forall st,
    progress (h st) = progress st /\
    currentProgress (h st) = currentProgress st /\
    interval (h st) = interval st /\
    (status (h st) = UPLOADING -> status st = UPLOADING).

Lemma handler_framesProgress (e : Event) :
  (forall random, e <> ProgressTick random) -> framesProgress (handler e).
Proof.
  intros Hnot st. destruct e; cbn [handler].
  - unfold handleFileChange. destruct selected as [f|]; [|auto].
    destruct (negb (JsString.startsWith (type f) "video/")); cbn; auto.
    repeat split. discriminate.
  - unfold onVideoMetadataLoaded.
    destruct (gt duration 300); cbn; auto.
  - destruct (submit_cases st) as [(_ & _ & ->) | [(_ & ->) | (_ & _ & ->)]];
      cbn; auto. repeat split. discriminate.
  - destruct (submit_cases st) as [(_ & _ & ->) | [(_ & ->) | (_ & _ & ->)]];
      cbn; auto. repeat split. discriminate.
  - destruct outcome; cbn; repeat split; discriminate.
  - cbn. repeat split. discriminate.
  - cbn. auto.
  - cbn. auto.
  - cbn. auto.
  - cbn. auto.
  - exfalso. exact (Hnot random eq_refl).
Qed.

Lemma progressEffect_status (st : State) :
  status (progressEffect st) = status st.
Proof. destruct st as [s ? ? ? ? ? ? ? ? ? ? ?]; destruct s; reflexivity. Qed.

Lemma progressEffect_inv (st : State) :
  status st <> UPLOADING -> progressInv (progressEffect st).
Proof.
  destruct st as [s ? ? ? ? ? ? ? ? ? ? ?]; destruct s; cbn; intros H;
    try congruence; unfold progressInv; cbn; repeat split;
    try apply Qle_refl; try discriminate.
Qed.

Lemma progressEffect_analyzing (st : State) :
  status st = ANALYZING -> progress (progressEffect st) = 0%Q.
Proof.
  destruct st as [s ? ? ? ? ? ? ? ? ? ? ?]; cbn; intros ->; reflexivity.
Qed.

Lemma render_inv (h : State -> State) (st : State) :
  framesProgress h -> progressInv st -> progressInv (render h st).
Proof.
  intros Hframe Hinv. destruct (Hframe st) as (Hp & Hc & Hi & Hup).
  unfold render, commit.
  destruct (AnalysisStatus_eqb (status st) (status (h st))) eqn:Heq.
  - apply AnalysisStatus_eqb_eq in Heq.
    unfold progressInv in *. now rewrite <- Heq, Hp, Hc, Hi.
  - apply progressEffect_inv. intros Hu.
    unfold progressInv in Hinv. now rewrite (Hup Hu) in Hinv.
Qed.

Lemma progressTick_status (random : Q) (st : State) :
  status (progressTick random st) = status st.
Proof.
  unfold progressTick. destruct (interval st); [|reflexivity].
  destruct (lt (currentProgress st) 90); reflexivity.
Qed.

(** One tick keeps the invariant and does not lower the shown value. *)
Lemma progressTick_inv (random : Q) (st : State) :
  progressInv st ->
  progressInv (progressTick random st) /\
  (progress st <= progress (progressTick random st))%Q.
Proof.
  intros Hinv. unfold progressTick.
  destruct (interval st) eqn:Hint; [|split; [exact Hinv | apply Qle_refl]].
  destruct (lt (currentProgress st) 90) eqn:Hlt;
    [|split; [exact Hinv | apply Qle_refl]].
  unfold progressInv in *.
  destruct st as [s f u d r e c t g p cp i]; cbn in *.
  destruct s; try (destruct Hinv; congruence); try contradiction.
  destruct Hinv as (_ & H0 & H95 & Hcp).
  set (increment := Qmax 0.2 ((95 - cp) * 0.05 * random)).
  assert (Hinc : (0.2 <= increment)%Q) by apply Q.le_max_l.
  assert (Hgrow : (p <= cp + increment)%Q) by lra.
  repeat split.
  - exact Hint.
  - apply Q.min_glb; lra.
  - apply Q.le_min_l.
  - apply Q.le_min_r.
  - apply Q.min_glb; assumption.
Qed.

Lemma step_inv (e : Event) (st : State) :
  progressInv st -> progressInv (step e st).
Proof.
  intros Hinv. destruct e;
    try (apply render_inv; [apply handler_framesProgress; discriminate | exact Hinv]).
  unfold step, render. cbn [handler].
  rewrite <- (progressTick_status random st) at 1. rewrite commit_same.
  now apply progressTick_inv.
Qed.

Lemma run_inv (events : list Event) (st : State) :
  progressInv st -> progressInv (run events st).
Proof.
  revert st; induction events as [|e events IH]; intros st Hinv; [exact Hinv|].
  cbn [run fold_left]. apply IH. now apply step_inv.
Qed.

Lemma reachable_inv (st : State) : reachable st -> progressInv st.
Proof.
  intros [events ->]. apply run_inv. unfold progressInv. cbn. auto.
Qed.

(** C6. In every state the component reaches: while [ANALYZING] the
    progress lies between 0 and 95; in [COMPLETED] it is exactly 100; in
    [ERROR] and [IDLE] it is 0. An event that brings the status to
    [ANALYZING] leaves the progress at 0; a tick never lowers it, and no
    event under which the status stays [ANALYZING] lowers it. *)
Theorem progress_follows_status (st : State) :
  reachable st ->
  (status st = ANALYZING -> (0 <= progress st)%Q /\ (progress st <= 95)%Q) /\
  (status st = COMPLETED -> progress st = 100%Q) /\
  (status st = ERROR \/ status st = IDLE -> progress st = 0%Q) /\
  (forall e,
     status st <> ANALYZING -> status (step e st) = ANALYZING ->
     progress (step e st) = 0%Q) /\
  (forall random, (progress st <= progress (step (ProgressTick random) st))%Q) /\
  (forall e,
     status st = ANALYZING -> status (step e st) = ANALYZING ->
     (progress st <= progress (step e st))%Q).
Proof.
  intros Hreach. pose proof (reachable_inv Hreach) as Hinv.
  assert (Htick : forall random,
             step (ProgressTick random) st = progressTick random st).
  { intros random. unfold step, render. cbn [handler].
    rewrite <- (progressTick_status random st) at 1. apply commit_same. }
  split; [|split; [|split; [|split; [|split]]]].
  - intros Hs. unfold progressInv in Hinv. rewrite Hs in Hinv. tauto.
  - intros Hs. unfold progressInv in Hinv. rewrite Hs in Hinv. tauto.
  - intros [Hs|Hs]; unfold progressInv in Hinv; rewrite Hs in Hinv; tauto.
  - intros e Hbefore Hafter. unfold step, render, commit in *.
    destruct (AnalysisStatus_eqb (status st) (status (handler e st))) eqn:Heq.
    + apply AnalysisStatus_eqb_eq in Heq. congruence.
    + rewrite progressEffect_status in Hafter.
      now apply progressEffect_analyzing.
  - intros random. rewrite Htick. now apply progressTick_inv.
  - intros e Hbefore Hafter.
    destruct e; try rewrite Htick; try (now apply progressTick_inv);
      unfold step, render in *; rewrite commit_status in Hafter;
      unfold commit; rewrite Hbefore, Hafter; cbn [AnalysisStatus_eqb];
      match goal with
      | |- (_ <= progress (handler ?e _))%Q =>
          destruct (@handler_framesProgress e ltac:(discriminate) st) as (-> & _)
      end; apply Qle_refl.
Qed.

(** A run of the component: a topic is typed, the analysis is started and
    the interval fires three times. *)
Definition analyzingAfterTicks : State :=
  run [TopicInput "房贷"; AnalyzeClick; ProgressTick 0.5%Q; ProgressTick 0.9%Q;
       ProgressTick 0.1%Q] init.

(** After the three ticks the progress lies between 0 and 95. *)
Lemma progress_follows_status_witness :
  (0 <= progress analyzingAfterTicks)%Q /\
  (progress analyzingAfterTicks <= 95)%Q.
Proof.
  apply (progress_follows_status (st := analyzingAfterTicks)).
  - exists [TopicInput "房贷"; AnalyzeClick; ProgressTick 0.5%Q;
            ProgressTick 0.9%Q; ProgressTick 0.1%Q]. reflexivity.
  - reflexivity.
Defined.

End ProgressFacts.

(* ================================================================== *)
(** * Properties: the duration limit *)
(* ================================================================== *)

Module DurationFacts.

Import Types VideoAnalyzer VideoAnalyzerFacts.
Local Open Scope string_scope.

Lemma step_metadata (d : Q) (st : State) :
  step (VideoMetadataLoaded d) st = onVideoMetadataLoaded d st.
Proof.
  unfold step, render. cbn [handler].
  replace (status st) with (status (onVideoMetadataLoaded d st)).
  - apply commit_same.
  - unfold onVideoMetadataLoaded. destruct (gt d 300); reflexivity.
Qed.

(** The limit on the video whose duration was reported: above 300 seconds
    the message is set and [handleAnalyze] returns from its guard; at 300
    seconds or below the message is left alone and [handleAnalyze] goes
    on to the service. *)
Lemma duration_limit (st : State) (d : Q) :
  file st <> None ->
  ((300 < d)%Q ->
     error (step (VideoMetadataLoaded d) st) = Some msgOverLimit /\
     submit (step (VideoMetadataLoaded d) st) =
       (setError (Some msgOverLimitBlocked) (step (VideoMetadataLoaded d) st),
        None)) /\
  ((d <= 300)%Q ->
     error (step (VideoMetadataLoaded d) st) = error st /\
     snd (submit (step (VideoMetadataLoaded d) st)) =
       Some (requestOf (step (VideoMetadataLoaded d) st))).
Proof.
  intros Hfile. rewrite step_metadata. unfold onVideoMetadataLoaded.
  split; intros Hd.
  - assert (Hgt : gt d 300 = true) by now apply gt_iff.
    rewrite Hgt. split; [reflexivity|].
    destruct (submit_cases (setError (Some msgOverLimit) (setVideoDuration d st)))
      as [(Hm & _) | [(_ & H) | (_ & Ho & _)]].
    + contradiction.
    + exact H.
    + exfalso. apply Ho. split; assumption.
  - assert (Hgt : gt d 300 = false).
    { destruct (gt d 300) eqn:E; [|reflexivity].
      apply gt_iff in E. exfalso. exact (Qlt_not_le _ _ E Hd). }
    rewrite Hgt. split; [reflexivity|].
    destruct (submit_cases (setVideoDuration d st))
      as [(Hm & _) | [((_ & Ho) & _) | (_ & _ & H)]].
    + contradiction.
    + exfalso. exact (Qlt_not_le _ _ Ho Hd).
    + now rewrite H.
Qed.

Lemma duration_limit_at_300_and_301 :
  let loaded := step (FileChange (Some clip) "blob:1") init in
  snd (submit (step (VideoMetadataLoaded 301%Q) loaded)) = None /\
  error (step (VideoMetadataLoaded 301%Q) loaded) = Some msgOverLimit /\
  snd (submit (step (VideoMetadataLoaded 300%Q) loaded)) <> None /\
  error (step (VideoMetadataLoaded 300%Q) loaded) = None /\
  snd (submit loaded) <> None.
Proof. cbv zeta. repeat split; discriminate. Qed.

Definition longClip : File := mkFile "long.mp4" "video/mp4" 73400320.
Definition shortClip : File := mkFile "short.mp4" "video/mp4" 1048576.

(** A video of 301 seconds is loaded and reported, the user clicks
    re-upload and picks another video, whose duration has not been
    reported yet. *)
Definition replacedBeforeMetadata : State :=
  run [FileChange (Some longClip) "blob:1"; VideoMetadataLoaded 301%Q;
       ReuploadClick; FileChange (Some shortClip) "blob:2"] init.

(** C8, at the input where the code departs from it. Neither
    [handleFileChange] nor [reupload] writes [videoDuration], so the new
    video, whose duration is not known yet, is held to the 301 seconds of
    the previous one: [handleAnalyze] returns from the duration guard with
    the over-limit message. The same video picked first, with the initial
    duration 0, passes the guard. *)
Theorem stale_duration_blocks_replacement :
  file replacedBeforeMetadata = Some shortClip /\
  videoDuration replacedBeforeMetadata = 301%Q /\
  error replacedBeforeMetadata = None /\
  submit replacedBeforeMetadata =
    (setError (Some msgOverLimitBlocked) replacedBeforeMetadata, None) /\
  snd (submit (run [FileChange (Some shortClip) "blob:2"] init)) =
    Some (Some shortClip, GeminiService.mkOptions "" GeminiService.D15s []).
Proof. repeat split. Qed.

End DurationFacts.

(* ================================================================== *)
(** * Properties: the rotating display and the search *)
(* ================================================================== *)

Module QuoteLibraryFacts.

Import Types QuoteLibrary.
Local Open Scope string_scope.

Lemma Category_eqb_eq (a b : Category) : Category_eqb a b = true <-> a = b.
Proof. destruct a, b; simpl; split; congruence. Qed.

Lemma insertRandomly_permutes {A} (random : Random) (k : nat) (x : A)
  (l : list A) :
  Permutation (x :: l) (fst (insertRandomly random k x l)).
Proof.
  revert k; induction l as [|y l IH]; intros k; cbn [insertRandomly].
  - apply Permutation_refl.
  - destruct (Qle_bool (random k) 0.5); [apply Permutation_refl|].
    specialize (IH (S k)).
    destruct (insertRandomly random (S k) x l) as [rest' k']. cbn [fst] in *.
    rewrite perm_swap. now apply perm_skip.
Qed.

Lemma insertionSortFrom_permutes {A} (random : Random) (k : nat) (l : list A) :
  Permutation l (fst (insertionSortFrom random k l)).
Proof.
  induction l as [|x l IH]; cbn [insertionSortFrom].
  - apply Permutation_refl.
  - destruct (insertionSortFrom random k l) as [sorted k']. cbn [fst] in IH.
    rewrite <- insertRandomly_permutes. now apply perm_skip.
Qed.

Lemma insertionSortRandomly_permutes (random : Random) (l : list Quote) :
  Permutation l (insertionSortRandomly random l).
Proof. apply insertionSortFrom_permutes. Qed.

Section Facts.

Variable BUILT_IN_QUOTES : list Quote.
Variable toLowerCase : string -> string.
Variable sortRandomly : Random -> list Quote -> list Quote.

(** What every engine's sort keeps even under a comparator that answers
    at random: the result holds the elements of the input, each as often. *)
Hypothesis sortRandomly_permutes :
  forall random l, Permutation l (sortRandomly random l).

Local Abbreviation pool := (pool BUILT_IN_QUOTES).
Local Abbreviation refreshQuotes := (refreshQuotes BUILT_IN_QUOTES sortRandomly).
Local Abbreviation displayQuotes := (displayQuotes BUILT_IN_QUOTES toLowerCase).
Local Abbreviation step := (step BUILT_IN_QUOTES sortRandomly).
Local Abbreviation run := (run BUILT_IN_QUOTES sortRandomly).
Local Abbreviation mount := (mount BUILT_IN_QUOTES sortRandomly).

(** The pool is the category's partition, or the whole collection for
    "全部". *)
Lemma pool_partition (selected : Category) (q : Quote) :
  In q (pool selected) <->
  In q BUILT_IN_QUOTES /\ (selected = CatAll \/ category q = selected).
Proof.
  unfold QuoteLibrary.pool.
  destruct (Category_eqb selected CatAll) eqn:Hall; cbn [negb].
  - apply Category_eqb_eq in Hall. tauto.
  - rewrite filter_In, Category_eqb_eq.
    assert (selected <> CatAll).
    { intros H. apply Category_eqb_eq in H. congruence. }
    tauto.
Qed.

Lemma pool_all : pool CatAll = BUILT_IN_QUOTES.
Proof. reflexivity. Qed.

Lemma pool_NoDup (selected : Category) :
  NoDup BUILT_IN_QUOTES -> NoDup (pool selected).
Proof.
  intros Hdistinct. unfold QuoteLibrary.pool.
  destruct (negb (Category_eqb selected CatAll));
    [apply NoDup_filter|]; exact Hdistinct.
Qed.

(** C7. [refreshQuotes] shows the first records of a rearrangement of the
    selected category's partition (the whole collection for "全部"): the
    shown records all belong to the partition, are pairwise distinct when
    the records of the collection are, and number the smaller of 8 and the
    size of the partition; a partition of at most 8 records is shown whole.
    On a collection of 20 distinct records under "全部" exactly 8 distinct
    records are shown, and a partition of 3 records is shown whole. *)
Theorem refresh_shows_distinct_prefix (random : Random) (st : State) :
  let part := pool (selectedCategory st) in
  let shown := visibleQuotes (refreshQuotes random st) in
  (exists rest, Permutation part (shown ++ rest)) /\
  (forall q, In q shown ->
     In q BUILT_IN_QUOTES /\
     (selectedCategory st = CatAll \/ category q = selectedCategory st)) /\
  (NoDup BUILT_IN_QUOTES -> NoDup shown) /\
  List.length shown = Nat.min 8 (List.length part) /\
  (List.length part <= 8 -> Permutation part shown) /\
  (selectedCategory st = CatAll -> List.length BUILT_IN_QUOTES = 20 ->
     List.length shown = 8 /\ (NoDup BUILT_IN_QUOTES -> NoDup shown)) /\
  (List.length part = 3 -> Permutation part shown /\ List.length shown = 3) /\
  timeRemaining (refreshQuotes random st) = 120%Z.
Proof.
  intros part shown.
  set (shuffled := sortRandomly random part).
  assert (Hperm : Permutation part shuffled) by apply sortRandomly_permutes.
  assert (Hshown : shown = firstn 8 shuffled) by reflexivity.
  assert (Hsplit : Permutation part (shown ++ skipn 8 shuffled)).
  { rewrite Hshown, firstn_skipn. exact Hperm. }
  assert (Hnodup : NoDup BUILT_IN_QUOTES -> NoDup shown).
  { intros Hdistinct.
    apply (NoDup_app_remove_r shown (skipn 8 shuffled)).
    apply (Permutation_NoDup Hsplit). now apply pool_NoDup. }
  assert (Hlen : List.length shown = Nat.min 8 (List.length part)).
  { rewrite Hshown, length_firstn, (Permutation_length Hperm). reflexivity. }
  assert (Hwhole : List.length part <= 8 -> Permutation part shown).
  { intros Hle. rewrite Hshown, firstn_all2; [exact Hperm|].
    now rewrite <- (Permutation_length Hperm). }
  split; [|split; [|split; [|split; [|split; [|split; [|split]]]]]].
  - exists (skipn 8 shuffled). exact Hsplit.
  - intros q Hq. apply pool_partition.
    apply (Permutation_in q (Permutation_sym Hsplit)).
    apply in_or_app. now left.
  - exact Hnodup.
  - exact Hlen.
  - exact Hwhole.
  - intros Hall H20. split; [|exact Hnodup].
    rewrite Hlen. unfold part. rewrite Hall, pool_all, H20. reflexivity.
  - intros H3. split.
    + apply Hwhole. lia.
    + rewrite Hlen, H3. reflexivity.
  - reflexivity.
Qed.

(** [term] occurs in the text of [q] when case is ignored: the lowered
    text is some text, then the lowered term, then some text. *)
Definition occursIgnoringCase (term : string) (q : Quote) : Prop :=
  exists pre post, toLowerCase (text q) = pre ++ toLowerCase term ++ post.

Lemma step_search (value : string) (st : State) :
  step (SearchInput value) st = setSearchTerm value st.
Proof. reflexivity. Qed.

(** C9. With a search term that is not empty the display is the
    collection filtered, in its order, to the records in whose text the
    term occurs when case is ignored, whatever category is selected and
    whatever subset is stored. With an empty search term the display is
    the stored subset. Typing in the search field, clearing it included,
    changes the search term alone, so the display after clearing is the
    subset stored before. *)
Theorem display_rule (st : State) :
  (searchTerm st <> "" ->
     (forall q, In q (displayQuotes st) <->
                In q BUILT_IN_QUOTES /\ occursIgnoringCase (searchTerm st) q) /\
     (exists keep, displayQuotes st = filter keep BUILT_IN_QUOTES /\
        forall q, keep q = true <-> occursIgnoringCase (searchTerm st) q) /\
     (forall cat visible time,
        displayQuotes (mkState (searchTerm st) cat visible time)
          = displayQuotes st)) /\
  (searchTerm st = "" -> displayQuotes st = visibleQuotes st) /\
  (forall value,
     visibleQuotes (step (SearchInput value) st) = visibleQuotes st /\
     selectedCategory (step (SearchInput value) st) = selectedCategory st /\
     timeRemaining (step (SearchInput value) st) = timeRemaining st /\
     searchTerm (step (SearchInput value) st) = value) /\
  displayQuotes (step (SearchInput "") st) = visibleQuotes st.
Proof.
  split; [|split; [|split]].
  - intros Hterm. apply JsStringFacts.truthy_nonempty in Hterm.
    unfold QuoteLibrary.displayQuotes. cbn [searchTerm]. rewrite Hterm.
    split; [|split].
    + intros q. rewrite filter_In, JsStringFacts.includes_occurs. reflexivity.
    + eexists. split; [reflexivity|].
      intros q. cbv beta. apply JsStringFacts.includes_occurs.
    + reflexivity.
  - intros Hterm. unfold QuoteLibrary.displayQuotes. now rewrite Hterm.
  - intros value. rewrite step_search. auto.
  - reflexivity.
Qed.

(** After the first render, the stored subset is always the outcome of a
    rotation over the selected category. *)
Lemma visible_is_a_rotation (random : Random) (events : list Event) :
  exists random',
    visibleQuotes (run events (mount random)) =
    slice0 8 (sortRandomly random'
                (pool (selectedCategory (run events (mount random))))).
Proof.
  assert (H : forall st,
             (exists random', visibleQuotes st =
                slice0 8 (sortRandomly random' (pool (selectedCategory st)))) ->
             exists random', visibleQuotes (run events st) =
                slice0 8 (sortRandomly random'
                            (pool (selectedCategory (run events st))))).
  { induction events as [|e events IH]; intros st Hst; [exact Hst|].
    cbn [QuoteLibrary.run fold_left]. apply IH.
    destruct e as [cat r | r | r | value]; cbn [QuoteLibrary.step].
    - unfold handleCategoryChange.
      destruct (Category_eqb cat (selectedCategory st)); [exact Hst|].
      exists r. reflexivity.
    - exists r. reflexivity.
    - unfold timerTick. destruct (timeRemaining st <=? 1)%Z.
      + exists r. reflexivity.
      + exact Hst.
    - exact Hst. }
  apply H. exists random. reflexivity.
Qed.

End Facts.

(** ** A collection to run the component on *)

Definition record (n : nat) : Quote :=
  mkQuote (Z.of_nat n) "成年人的崩溃，往往悄无声息。"
    (if Nat.even n then CatMortgage else CatWorkplace) None.

Definition twentyRecords : list Quote := map record (seq 1 20).

Lemma twentyRecords_distinct : NoDup twentyRecords.
Proof.
  apply (NoDup_map_inv id). vm_compute.
  repeat (constructor; [simpl; intuition discriminate|]). constructor.
Qed.

(** A random source that alternates between the two answers. *)
Definition coin : Random := fun k => if Nat.even k then 0.25%Q else 0.75%Q.

(** On the twenty records, under "全部", the insertion sort driven by the
    coin shows 8 distinct records. *)
Lemma refresh_shows_distinct_prefix_witness :
  List.length
    (visibleQuotes
       (refreshQuotes twentyRecords insertionSortRandomly coin init)) = 8 /\
  NoDup
    (visibleQuotes
       (refreshQuotes twentyRecords insertionSortRandomly coin init)).
Proof.
  destruct (@refresh_shows_distinct_prefix twentyRecords insertionSortRandomly
              insertionSortRandomly_permutes coin init)
    as (_ & _ & _ & _ & _ & H20 & _).
  destruct (H20 eq_refl eq_refl) as [Hlen Hnodup].
  split; [exact Hlen | exact (Hnodup twentyRecords_distinct)].
Defined.

End QuoteLibraryFacts.

(* ================================================================== *)
(** * Properties: the service from key check to parsed result *)
(* ================================================================== *)

Module ServiceFacts.

Import Types GeminiService.
Local Open Scope string_scope.
Local Open Scope list_scope.

Definition noKeyError : JsError := Error "API Key not found in environment".
Definition noResponseError : JsError := Error "No response from Gemini".

(** [!apiKey] is false: the key is set and not empty. *)
Definition keyPresent (env : Env) : Prop :=
  exists a k, API_KEY env = Some (String a k).

(** The inline part the service builds from the file, when reading it
    succeeds. *)
Definition mediaOf (env : Env) (videoFile : option File)
  : JsError + list Part :=
  match videoFile with
  | Some f =>
      match readAsBase64 env f with
      | inr base64Video => inr [InlineData (type f) base64Video]
      | inl e => inl e
      end
  | None => inr []
  end.

Definition readLog (videoFile : option File) : list IOEvent :=
  match videoFile with Some f => [EvReadBlob f] | None => [] end.

Definition hasVideo (videoFile : option File) : bool :=
  match videoFile with Some _ => true | None => false end.

(** The request the service sends, given the inline part. *)
Definition sentParams (env : Env) (videoFile : option File)
  (options : AnalysisOptions) (media : list Part) : GenerateParams :=
  requestParams env
    (media ++ [Text (buildPrompt env (hasVideo videoFile) options)])%list.

(** What the service makes of the transport's outcome. *)
Definition interpret (env : Env) (outcome : JsError + Response)
  : JsError + AnalysisResult :=
  match outcome with
  | inl e => inl e
  | inr response =>
      match responseText response with
      | Some (String _ _ as text) => JSON_parse env text
      | _ => inl noResponseError
      end
  end.

(** The [console.error] of the outer [catch]. *)
Definition errorLog {A} (outcome : JsError + A) : list IOEvent :=
  match outcome with inl e => [EvConsoleError e] | inr _ => [] end.

Lemma analyze_without_key (env : Env) (videoFile : option File)
  (options : AnalysisOptions) (w : World) :
  ~ keyPresent env ->
  analyzeVideoAndGenerateQuotes env videoFile options w =
    (w ++ [EvConsoleError noKeyError], inl noKeyError)%list.
Proof.
  intros Hkey. unfold analyzeVideoAndGenerateQuotes, tryCatch, bind.
  destruct (API_KEY env) as [[|a k]|] eqn:E; try reflexivity.
  exfalso. apply Hkey. now exists a, k.
Qed.

Lemma analyze_read_failed (env : Env) (f : File) (options : AnalysisOptions)
  (w : World) (e : JsError) :
  keyPresent env -> readAsBase64 env f = inl e ->
  analyzeVideoAndGenerateQuotes env (Some f) options w =
    (w ++ [EvReadBlob f; EvConsoleError e], inl e)%list.
Proof.
  intros (a & k & Hkey) Hread.
  unfold analyzeVideoAndGenerateQuotes, tryCatch, bind, blobToBase64, bind,
    emit, lift, ret, throw.
  rewrite Hkey, Hread. now rewrite <- app_assoc.
Qed.

(** The service once the key is there and the file, if any, was read: the
    read, then the transport's calls, then the reading of the response,
    and one [console.error] when the outcome is a rejection. *)
Lemma analyze_run (env : Env) (videoFile : option File)
  (options : AnalysisOptions) (w : World) (media : list Part) :
  keyPresent env -> mediaOf env videoFile = inr media ->
  exists n,
    n <= 2 /\
    analyzeVideoAndGenerateQuotes env videoFile options w =
      ((w ++ readLog videoFile ++
          RetryFacts.retryLog (sentParams env videoFile options media) 2 n ++
          errorLog
            (interpret env
               (generateContent env (calls w + n)
                  (sentParams env videoFile options media))))%list,
       interpret env
         (generateContent env (calls w + n)
            (sentParams env videoFile options media))) /\
    (forall i, i < n ->
       exists e,
         generateContent env (calls w + i)
           (sentParams env videoFile options media) = inl e /\
         retryable e = true) /\
    (n < 2 ->
       forall e,
         generateContent env (calls w + n)
           (sentParams env videoFile options media) = inl e ->
         retryable e = false).
Proof.
  intros (a & k & Hkey) Hmedia.
  set (params := sentParams env videoFile options media).
  destruct (RetryFacts.generateWithRetry_run env params 2
              (w ++ readLog videoFile)%list)
    as (n & Hn & Hrun & Hpast & Hlast).
  assert (Hcalls : calls (w ++ readLog videoFile) = calls w).
  { rewrite RetryFacts.calls_app. destruct videoFile; cbn; lia. }
  rewrite Hcalls in *.
  exists n. split; [exact Hn|]. split; [|split; assumption].
  assert (Hbody :
    forall w1, w1 = (w ++ readLog videoFile)%list ->
      tryCatch
        (bind (generateWithRetry env params defaultRetries)
           (fun response =>
              match responseText response with
              | Some (String _ _ as text) => lift (JSON_parse env text)
              | _ => throw (Error "No response from Gemini")
              end))
        (fun error => bind (emit (EvConsoleError error)) (fun _ => throw error))
        w1 =
      ((w ++ readLog videoFile ++ RetryFacts.retryLog params 2 n ++
          errorLog (interpret env (generateContent env (calls w + n) params)))%list,
       interpret env (generateContent env (calls w + n) params))).
  { intros w1 ->. unfold tryCatch, bind, defaultRetries. rewrite Hrun.
    destruct (generateContent env (calls w + n) params) as [e|response];
      cbn [interpret errorLog].
    - unfold emit, throw. now rewrite <- !app_assoc.
    - destruct (responseText response) as [[|c text]|];
        unfold throw, emit, lift; cbn [errorLog];
        try (now rewrite <- !app_assoc).
      destruct (JSON_parse env (String c text)) as [e|r]; cbn [errorLog].
      + now rewrite <- !app_assoc.
      + now rewrite app_nil_r, <- !app_assoc. }
  unfold analyzeVideoAndGenerateQuotes. unfold tryCatch at 1. unfold bind at 1.
  rewrite Hkey. unfold ret at 1.
  destruct videoFile as [f|]; cbn [mediaOf readLog] in *.
  - destruct (readAsBase64 env f) as [e|base64Video] eqn:Hread; [discriminate|].
    injection Hmedia as <-.
    unfold bind at 1. unfold blobToBase64, bind, emit, lift. rewrite Hread.
    unfold ret at 1.
    specialize (Hbody (w ++ [EvReadBlob f])%list eq_refl).
    unfold tryCatch, bind in Hbody. unfold params, sentParams, hasVideo in *.
    exact Hbody.
  - injection Hmedia as <-.
    unfold bind at 1. unfold ret at 1.
    specialize (Hbody (w ++ [])%list eq_refl).
    rewrite app_nil_r in Hbody.
    unfold tryCatch, bind in Hbody. unfold params, sentParams, hasVideo in *.
    exact Hbody.
Qed.

Lemma keyPresent_dec (env : Env) : keyPresent env \/ ~ keyPresent env.
Proof.
  unfold keyPresent. destruct (API_KEY env) as [[|a k]|].
  - right. intros (a & k & H). discriminate.
  - left. now exists a, k.
  - right. intros (a & k & H). discriminate.
Qed.

(** A remote call in the log carries the request [p]. *)
Definition onlyRequest (p : GenerateParams) (ev : IOEvent) : Prop :=
  match ev with EvGenerateContent q => q = p | _ => True end.

Definition notConsoleError (ev : IOEvent) : Prop :=
  match ev with EvConsoleError _ => False | _ => True end.

Lemma retryLog_onlyRequest (params : GenerateParams) (retries n : nat) :
  Forall (onlyRequest params) (RetryFacts.retryLog params retries n).
Proof.
  revert retries; induction n as [|n IH]; intros retries;
    cbn [RetryFacts.retryLog]; repeat (constructor; [cbn; auto|]);
    [constructor | apply IH].
Qed.

Lemma retryLog_notConsoleError (params : GenerateParams) (retries n : nat) :
  Forall notConsoleError (RetryFacts.retryLog params retries n).
Proof.
  revert retries; induction n as [|n IH]; intros retries;
    cbn [RetryFacts.retryLog]; repeat (constructor; [exact I|]);
    [constructor | apply IH].
Qed.

Lemma readLog_facts (videoFile : option File) (p : GenerateParams) :
  calls (readLog videoFile) = 0 /\
  Forall (onlyRequest p) (readLog videoFile) /\
  Forall notConsoleError (readLog videoFile) /\
  Forall RetryFacts.fixedDelay (readLog videoFile).
Proof. destruct videoFile; cbn; repeat split; repeat constructor. Qed.

Lemma errorLog_facts {A} (outcome : JsError + A) (p : GenerateParams) :
  calls (errorLog outcome) = 0 /\
  Forall (onlyRequest p) (errorLog outcome) /\
  Forall RetryFacts.fixedDelay (errorLog outcome).
Proof. destruct outcome; cbn; repeat split; repeat constructor. Qed.

(** The service never leaves the log it was given, adds at most three
    remote calls, and every delay it adds is of 2000 ms. *)
Lemma analyze_log (env : Env) (videoFile : option File)
  (options : AnalysisOptions) (w : World) :
  exists added,
    fst (analyzeVideoAndGenerateQuotes env videoFile options w) = w ++ added /\
    calls added <= 3 /\
    Forall RetryFacts.fixedDelay added /\
    (0 < calls added ->
       keyPresent env /\
       exists media,
         mediaOf env videoFile = inr media /\
         Forall (onlyRequest (sentParams env videoFile options media)) added).
Proof.
  destruct (keyPresent_dec env) as [Hkey|Hkey].
  - destruct (mediaOf env videoFile) as [e|media] eqn:Hmedia.
    + destruct videoFile as [f|]; cbn [mediaOf] in Hmedia; [|discriminate].
      destruct (readAsBase64 env f) as [e'|b] eqn:Hread; [|discriminate].
      rewrite (analyze_read_failed f options w Hkey Hread). cbn [fst].
      eexists. split; [reflexivity|]. cbn. repeat split; try lia.
      repeat constructor.
    + destruct (analyze_run videoFile options w Hkey Hmedia) as (n & Hn & -> & _).
      cbn [fst]. eexists. split; [reflexivity|].
      set (params := sentParams env videoFile options media).
      destruct (readLog_facts videoFile params) as (Hc1 & Ho1 & _ & Hd1).
      destruct (errorLog_facts
                  (interpret env (generateContent env (calls w + n) params))
                  params) as (Hc3 & Ho3 & Hd3).
      split; [|split].
      * rewrite !RetryFacts.calls_app, Hc1, Hc3, RetryFacts.calls_retryLog. lia.
      * repeat (apply Forall_app; split); auto.
        apply RetryFacts.retryLog_fixedDelay.
      * intros _. split; [exact Hkey|]. exists media. split; [reflexivity|].
        repeat (apply Forall_app; split); auto.
        apply retryLog_onlyRequest.
  - rewrite (analyze_without_key videoFile options w Hkey). cbn [fst].
    eexists. split; [reflexivity|]. cbn. repeat split; try lia.
    repeat constructor.
Qed.

(** X2. Whatever the key, the file, the options and the remote model do,
    one run of the service adds at most three remote calls to the log,
    every delay it waits is of 2000 ms, and all its remote calls carry one
    and the same request: the file's inline part, when there is a file,
    followed by the prompt. It makes a remote call only when the key is
    present and the file, if any, could be read. *)
Theorem service_sends_one_request_at_most_thrice (env : Env)
  (videoFile : option File) (options : AnalysisOptions) (w : World) :
  exists added,
    fst (analyzeVideoAndGenerateQuotes env videoFile options w) = w ++ added /\
    calls added <= 3 /\
    Forall RetryFacts.fixedDelay added /\
    (0 < calls added ->
       keyPresent env /\
       exists media,
         mediaOf env videoFile = inr media /\
         Forall (onlyRequest (sentParams env videoFile options media)) added).
Proof. apply analyze_log. Qed.

(** X3. A rejection of the service is logged with [console.error] exactly
    once, as the last thing it does, and carries the error it rejects
    with; a run that resolves logs no error at all. *)
Theorem service_logs_rejection_once (env : Env) (videoFile : option File)
  (options : AnalysisOptions) (w : World) :
  exists before,
    analyzeVideoAndGenerateQuotes env videoFile options w =
      (w ++ before ++
         errorLog (snd (analyzeVideoAndGenerateQuotes env videoFile options w)),
       snd (analyzeVideoAndGenerateQuotes env videoFile options w)) /\
    Forall notConsoleError before.
Proof.
  destruct (keyPresent_dec env) as [Hkey|Hkey].
  - destruct (mediaOf env videoFile) as [e|media] eqn:Hmedia.
    + destruct videoFile as [f|]; cbn [mediaOf] in Hmedia; [|discriminate].
      destruct (readAsBase64 env f) as [e'|b] eqn:Hread; [|discriminate].
      rewrite (analyze_read_failed f options w Hkey Hread). cbn [snd errorLog].
      exists [EvReadBlob f]. split; [reflexivity|]. repeat constructor.
    + destruct (analyze_run videoFile options w Hkey Hmedia) as (n & Hn & -> & _).
      cbn [snd].
      exists (readLog videoFile ++
              RetryFacts.retryLog (sentParams env videoFile options media) 2 n).
      split; [now rewrite <- !app_assoc|].
      apply Forall_app. split.
      * apply (readLog_facts videoFile (sentParams env videoFile options media)).
      * apply retryLog_notConsoleError.
  - rewrite (analyze_without_key videoFile options w Hkey). cbn [snd errorLog].
    exists []. split; [reflexivity | constructor].
Qed.

(** X4. A response that arrived is final. When the first remote call
    resolves, the service makes no further call, whatever the response
    holds: a missing or empty text is rejected with "No response from
    Gemini", and otherwise the outcome is the parser's, a parser error
    included, even one whose message would count as retryable. *)
Theorem response_is_never_retried (env : Env) (videoFile : option File)
  (options : AnalysisOptions) (w : World) (media : list Part)
  (response : Response) :
  keyPresent env -> mediaOf env videoFile = inr media ->
  generateContent env (calls w) (sentParams env videoFile options media)
    = inr response ->
  analyzeVideoAndGenerateQuotes env videoFile options w =
    (w ++ readLog videoFile ++
       [EvGenerateContent (sentParams env videoFile options media)] ++
       errorLog (interpret env (inr response)),
     interpret env (inr response)) /\
  calls (fst (analyzeVideoAndGenerateQuotes env videoFile options w))
    = calls w + 1 /\
  (responseText response = None \/ responseText response = Some "" ->
   snd (analyzeVideoAndGenerateQuotes env videoFile options w)
     = inl noResponseError) /\
  (forall a text,
     responseText response = Some (String a text) ->
     snd (analyzeVideoAndGenerateQuotes env videoFile options w)
       = JSON_parse env (String a text)).
Proof.
  intros Hkey Hmedia Hcall.
  destruct (analyze_run videoFile options w Hkey Hmedia) as (n & Hn & Hrun & Hpast & _).
  destruct n as [|n].
  - rewrite Nat.add_0_r, Hcall in Hrun. rewrite Hrun. cbn [fst snd].
    split; [reflexivity|]. split; [|split].
    + destruct (readLog_facts videoFile
                  (sentParams env videoFile options media)) as (Hc1 & _).
      destruct (errorLog_facts (interpret env (inr response))
                  (sentParams env videoFile options media)) as (Hc3 & _).
      rewrite !RetryFacts.calls_app, Hc1, Hc3. cbn. lia.
    + intros [H|H]; cbn [interpret]; now rewrite H.
    + intros a text H. cbn [interpret]. now rewrite H.
  - destruct (Hpast 0 ltac:(lia)) as (e & He & _).
    rewrite Nat.add_0_r in He. congruence.
Qed.

Definition plainEnv : Env :=
  {| API_KEY := Some "key";
     SYSTEM_PROMPT := "你是大承。";
     readAsBase64 := fun _ => inr "AAAA";
     generateContent := fun _ _ => inr (mkResponse (Some ""));
     JSON_stringify := fun l => String.concat "," l;
     JSON_parse := fun _ => inl (Error "Unexpected token 503") |}.

(** With a key, no file and a remote model that answers with an empty
    text, the service makes one call and rejects. *)
Lemma response_is_never_retried_witness :
  snd (analyzeVideoAndGenerateQuotes plainEnv None
         (mkOptions "房贷" D15s []) [])
    = inl noResponseError.
Proof.
  destruct (@response_is_never_retried plainEnv None
              (mkOptions "房贷" D15s []) [] [] (mkResponse (Some "")))
    as (_ & _ & H & _).
  - exists "k"%char, "ey". reflexivity.
  - reflexivity.
  - reflexivity.
  - apply H. right. reflexivity.
Defined.

End ServiceFacts.

(* ================================================================== *)
(** * Properties: the prompt *)
(* ================================================================== *)

Module PromptFacts.

Import Types GeminiService.
Local Open Scope string_scope.

Lemma append_assoc (a b c : string) : (a ++ b) ++ c = a ++ (b ++ c).
Proof. induction a as [|x a IH]; cbn; [reflexivity | now rewrite IH]. Qed.

Lemma append_nil_r (a : string) : a ++ "" = a.
Proof. induction a as [|x a IH]; cbn; [reflexivity | now rewrite IH]. Qed.

Lemma includes_middle (pre sub post : string) :
  JsString.includes (pre ++ sub ++ post) sub = true.
Proof. apply JsStringFacts.includes_occurs. now exists pre, post. Qed.

Lemma includes_append_l (s t sub : string) :
  JsString.includes s sub = true -> JsString.includes (s ++ t) sub = true.
Proof.
  rewrite !JsStringFacts.includes_occurs. intros (pre & post & ->).
  exists pre, (post ++ t). now rewrite !append_assoc.
Qed.

Lemma includes_append_r (s t sub : string) :
  JsString.includes t sub = true -> JsString.includes (s ++ t) sub = true.
Proof.
  rewrite !JsStringFacts.includes_occurs. intros (pre & post & ->).
  exists (s ++ pre), post. now rewrite !append_assoc.
Qed.

(** The topic counts when it is not blank. *)
Definition topicGiven (options : AnalysisOptions) : bool :=
  JsString.truthy (customInstruction options)
  && negb (JsString.trim (customInstruction options) =? "").

Lemma topicGiven_iff (options : AnalysisOptions) :
  topicGiven options = true <-> JsString.trim (customInstruction options) <> "".
Proof.
  unfold topicGiven. rewrite andb_true_iff, negb_true_iff, String.eqb_neq,
    JsStringFacts.truthy_nonempty.
  split; [tauto|]. intros H. split; [|exact H].
  intros Hempty. apply H. rewrite Hempty. reflexivity.
Qed.

Definition topicSection (topic : string) : string :=
  nl ++ nl ++ "【用户自定义主题】：请重点结合主题 " ++ JsString.dquote ++
  topic ++ JsString.dquote ++ " 进行创作。".

Definition fallbackSection : string :=
  nl ++ nl ++ "【创作主题】：请自由发挥，关于成年人的生活压力，房贷，车贷，工作。".

Lemma promptTopic_cases (video : bool) (options : AnalysisOptions) :
  promptTopic video options =
  if topicGiven options then topicSection (customInstruction options)
  else if video then "" else fallbackSection.
Proof.
  unfold promptTopic, topicGiven, topicSection, fallbackSection.
  destruct (JsString.truthy (customInstruction options)
            && negb (JsString.trim (customInstruction options) =? ""));
    [reflexivity|]. now destruct video.
Qed.

(** X5. What every prompt holds. It starts with the opening for its mode
    and always states the length requirement of the chosen duration. A
    topic that is not blank is quoted in it verbatim, between double
    quotes. A history that is not empty is written into it as the avoid
    list, and an empty history adds nothing after the length
    requirement. *)
Theorem prompt_contents (env : Env) (video : bool)
  (options : AnalysisOptions) :
  String.prefix (promptHead video) (buildPrompt env video options) = true /\
  JsString.includes (buildPrompt env video options)
    ("【时长要求】：" ++ durationMap (targetDuration options)) = true /\
  (JsString.trim (customInstruction options) <> "" ->
   JsString.includes (buildPrompt env video options)
     (JsString.dquote ++ customInstruction options ++ JsString.dquote) = true) /\
  (avoidQuotes options <> [] ->
   JsString.includes (buildPrompt env video options)
     ("【禁止重复】：请务必【不要】生成与以下内容雷同的语录，必须尝试新的切入点、风格或修辞：" ++
      nl ++ JSON_stringify env (avoidQuotes options)) = true) /\
  (avoidQuotes options = [] ->
   buildPrompt env video options =
   promptHead video ++ promptTopic video options ++ nl ++ nl ++
   "【时长要求】：" ++ durationMap (targetDuration options)).
Proof.
  unfold buildPrompt. split; [|split; [|split; [|split]]].
  - apply JsStringFacts.prefix_app. eexists. reflexivity.
  - apply includes_append_r, includes_append_r, includes_append_l.
    unfold promptDuration.
    apply includes_append_r, includes_append_r.
    apply JsStringFacts.includes_occurs. exists "", "".
    now rewrite append_nil_r.
  - intros Htopic. apply topicGiven_iff in Htopic.
    apply includes_append_r, includes_append_l.
    rewrite promptTopic_cases, Htopic. unfold topicSection.
    apply JsStringFacts.includes_occurs.
    exists (nl ++ nl ++ "【用户自定义主题】：请重点结合主题 "), " 进行创作。".
    now rewrite !append_assoc.
  - intros Havoid. apply includes_append_r, includes_append_r, includes_append_r.
    unfold promptAvoid. destruct (avoidQuotes options) as [|q rest] eqn:E;
      [contradiction|].
    apply JsStringFacts.includes_occurs. exists (nl ++ nl), "".
    now rewrite append_nil_r, ?append_assoc.
  - intros Havoid. unfold promptAvoid, promptDuration. rewrite Havoid.
    now rewrite append_nil_r, ?append_assoc.
Qed.

(** X6. A blank topic is no topic: a topic that trims to the empty string
    gives the very prompt the empty topic gives, which without a video
    carries the fallback theme and with a video carries no theme at all. *)
Theorem blank_topic_is_no_topic (env : Env) (video : bool) (topic : string)
  (d : DurationOption) (avoid : list string) :
  JsString.trim topic = "" ->
  buildPrompt env video (mkOptions topic d avoid)
    = buildPrompt env video (mkOptions "" d avoid) /\
  promptTopic video (mkOptions topic d avoid)
    = (if video then "" else fallbackSection).
Proof.
  intros Hblank.
  assert (Hgiven : topicGiven (mkOptions topic d avoid) = false).
  { destruct (topicGiven (mkOptions topic d avoid)) eqn:E; [|reflexivity].
    apply topicGiven_iff in E. cbn in E. contradiction. }
  assert (Htopic : promptTopic video (mkOptions topic d avoid)
                   = (if video then "" else fallbackSection)).
  { now rewrite promptTopic_cases, Hgiven. }
  split; [|exact Htopic].
  unfold buildPrompt. rewrite Htopic, promptTopic_cases.
  reflexivity.
Qed.

(** A topic of a space, a tab and an ideographic space. *)
Definition blankTopic : string :=
  " " ++ String (JsString.byte 9) "" ++ "　".

Lemma blank_topic_is_no_topic_witness :
  buildPrompt ServiceFacts.plainEnv false (mkOptions blankTopic D60s ["一"])
    = buildPrompt ServiceFacts.plainEnv false (mkOptions "" D60s ["一"]).
Proof.
  apply (@blank_topic_is_no_topic ServiceFacts.plainEnv false blankTopic D60s
           ["一"]).
  reflexivity.
Defined.

(** X7. The component never makes the service fall back on its own theme:
    a request that passed the guards of [handleAnalyze] without a video
    has a topic that is not blank, so its prompt carries that topic; and
    with or without a video the theme section is never the fallback. *)
Theorem ui_request_never_uses_fallback (st : VideoAnalyzer.State)
  (videoFile : option File) (options : AnalysisOptions) :
  snd (VideoAnalyzer.submit st) = Some (videoFile, options) ->
  promptTopic (ServiceFacts.hasVideo videoFile) options <> fallbackSection /\
  (videoFile = None ->
   JsString.trim (customInstruction options) <> "" /\
   promptTopic false options = topicSection (customInstruction options)).
Proof.
  intros Hreq.
  destruct (VideoAnalyzerFacts.submit_cases st)
    as [(_ & _ & H) | [(_ & H) | (Hpresent & _ & H)]];
    rewrite H in Hreq; cbn [snd] in Hreq; try discriminate.
  unfold VideoAnalyzerFacts.requestOf in Hreq.
  injection Hreq as <- <-.
  unfold VideoAnalyzerFacts.mediaAbsent, VideoAnalyzerFacts.topicAbsent in Hpresent.
  assert (Hnone : VideoAnalyzer.file st = None ->
            topicGiven (mkOptions (VideoAnalyzer.customInstruction st)
                          (VideoAnalyzer.targetDuration st)
                          (VideoAnalyzer.generatedHistory st)) = true).
  { intros Hfile. apply topicGiven_iff. cbn. tauto. }
  split.
  - rewrite promptTopic_cases.
    destruct (VideoAnalyzer.file st) as [f|] eqn:Hfile; cbn [ServiceFacts.hasVideo].
    + destruct (topicGiven _); [|discriminate].
      unfold topicSection, fallbackSection, nl, JsString.nl.
      cbn. intros Heq. discriminate Heq.
    + rewrite (Hnone eq_refl).
      unfold topicSection, fallbackSection, nl, JsString.nl.
      cbn. intros Heq. discriminate Heq.
  - intros Hfile. split.
    + apply topicGiven_iff. now apply Hnone.
    + now rewrite promptTopic_cases, (Hnone Hfile).
Qed.

Lemma ui_request_never_uses_fallback_witness :
  promptTopic false
    (mkOptions "房贷" D15s ["一"; "二"; "三"]) <> fallbackSection.
Proof.
  apply (@ui_request_never_uses_fallback VideoAnalyzerFacts.afterOneGeneration
           None (mkOptions "房贷" D15s ["一"; "二"; "三"])).
  reflexivity.
Defined.

End PromptFacts.

(* ================================================================== *)
(** * Properties: one analysis from click to settlement *)
(* ================================================================== *)

Module OrchestrationFacts.

Import Types VideoAnalyzer VideoAnalyzerFacts.
Local Open Scope string_scope.

(** ** The message shown for a failure *)

Lemma includes_nonempty (m sub : string) :
  sub <> "" -> JsString.includes m sub = true -> m <> "".
Proof.
  intros Hsub Hin ->. cbn in Hin. destruct sub; [contradiction | discriminate].
Qed.

(** X9. The message shown for a failed analysis is never empty. It is
    the transport message whenever the error's own message includes
    "Rpc failed", "xhr error" or "code: 6"; an error without a message, or
    with an empty one, shows the unknown-error message; any other error
    shows its own message unchanged. *)
Theorem failureMessage_cases (err : JsError) :
  failureMessage err <> "" /\
  (forall m,
     GeminiService.message err = Some m ->
     JsString.includes m "Rpc failed" = true \/
     JsString.includes m "xhr error" = true \/
     JsString.includes m "code: 6" = true ->
     failureMessage err = msgTransport) /\
  (GeminiService.message err = None \/ GeminiService.message err = Some "" ->
   failureMessage err = msgUnknown) /\
  (forall m,
     GeminiService.message err = Some m -> m <> "" ->
     JsString.includes m "Rpc failed" = false ->
     JsString.includes m "xhr error" = false ->
     JsString.includes m "code: 6" = false ->
     failureMessage err = m).
Proof.
  unfold failureMessage. destruct err as [[m|]]; cbn [GeminiService.message].
  - destruct m as [|a m].
    + repeat split; try discriminate.
      * intros m' Hm [H|[H|H]]; injection Hm as <-; discriminate H.
      * intros m' Hm Hne. injection Hm as <-. contradiction.
    + split; [|split; [|split]].
      * destruct (JsString.includes (String a m) "Rpc failed"
                  || JsString.includes (String a m) "xhr error"
                  || JsString.includes (String a m) "code: 6"); discriminate.
      * intros m' Hm H. injection Hm as <-.
        destruct H as [H|[H|H]]; rewrite H; rewrite ?orb_true_r; reflexivity.
      * intros [H|H]; discriminate.
      * intros m' Hm _ H1 H2 H3. injection Hm as <-. now rewrite H1, H2, H3.
  - repeat split; try discriminate.
Qed.

Lemma failureMessage_nonempty (err : JsError) : failureMessage err <> "".
Proof.
  unfold failureMessage. destruct err as [[[|a m]|]]; cbn [GeminiService.message];
    try discriminate.
  destruct (JsString.includes (String a m) "Rpc failed"
            || JsString.includes (String a m) "xhr error"
            || JsString.includes (String a m) "code: 6"); discriminate.
Qed.

(** ** From click to settlement *)

Lemma handleAnalyze_accepted (env : GeminiService.Env) (st : State)
  (w : GeminiService.World) :
  ~ rejected st ->
  handleAnalyze env st w =
    (render
       (settle
          (snd (GeminiService.analyzeVideoAndGenerateQuotes env (file st)
                  (snd (requestOf st)) w)))
       (commit (status st) (setError None (setStatus ANALYZING st))),
     fst (GeminiService.analyzeVideoAndGenerateQuotes env (file st)
            (snd (requestOf st)) w)).
Proof.
  intros Hacc. unfold handleAnalyze, rejected in *.
  destruct (submit_cases st) as [(_ & _ & H) | [(_ & H) | (_ & _ & H)]];
    rewrite H in *; cbn [snd] in Hacc; try congruence.
  unfold requestOf. cbn [fst snd].
  now destruct (GeminiService.analyzeVideoAndGenerateQuotes _ _ _ _).
Qed.

Lemma analyzing_committed (st : State) :
  let st2 := commit (status st) (setError None (setStatus ANALYZING st)) in
  status st2 = ANALYZING /\ error st2 = None /\ file st2 = file st /\
  videoUrl st2 = videoUrl st /\ result st2 = result st /\
  customInstruction st2 = customInstruction st /\
  generatedHistory st2 = generatedHistory st /\
  videoDuration st2 = videoDuration st.
Proof.
  destruct st as [s ? ? ? ? ? ? ? ? ? ? ?]; destruct s; cbn; repeat split.
Qed.

Lemma settled_from_analyzing (outcome : JsError + AnalysisResult) (st : State) :
  status st = ANALYZING ->
  let st' := render (settle outcome) st in
  file st' = file st /\ videoUrl st' = videoUrl st /\
  customInstruction st' = customInstruction st /\
  videoDuration st' = videoDuration st /\
  match outcome with
  | inr r =>
      status st' = COMPLETED /\ result st' = Some r /\ error st' = error st /\
      progress st' = 100%Q /\ interval st' = false /\
      generatedHistory st' = (generatedHistory st ++ generatedQuotes r)%list
  | inl e =>
      status st' = ERROR /\ result st' = result st /\
      error st' = Some (failureMessage e) /\
      progress st' = 0%Q /\ interval st' = false /\
      generatedHistory st' = generatedHistory st
  end.
Proof.
  destruct st as [s ? ? ? ? ? ? ? ? ? ? ?]; cbn. intros ->.
  destruct outcome; cbn; repeat split.
Qed.

(** X8. An analysis that passed the guards always settles: run from click
    to settlement it ends in [COMPLETED] or in [ERROR], never in
    [ANALYZING]. When the service resolves, the result is stored, no error
    is shown and the progress is at 100; when it rejects, the message for
    its error is shown, the previous result is kept and the progress is
    back at 0. Either way the interval is cleared, the file and the topic
    are untouched, and at most three remote calls were made. *)
Theorem handleAnalyze_settles (env : GeminiService.Env) (st : State)
  (w : GeminiService.World) :
  ~ rejected st ->
  let outcome :=
    snd (GeminiService.analyzeVideoAndGenerateQuotes env (file st)
           (snd (requestOf st)) w) in
  let st' := fst (handleAnalyze env st w) in
  match outcome with
  | inr r =>
      status st' = COMPLETED /\ result st' = Some r /\ error st' = None /\
      progress st' = 100%Q
  | inl e =>
      status st' = ERROR /\ result st' = result st /\
      error st' = Some (failureMessage e) /\ progress st' = 0%Q
  end /\
  interval st' = false /\
  file st' = file st /\ customInstruction st' = customInstruction st /\
  GeminiService.calls (snd (handleAnalyze env st w))
    <= GeminiService.calls w + 3.
Proof.
  intros Hacc outcome st'. unfold st'.
  rewrite (handleAnalyze_accepted env w Hacc). cbn [fst snd]. fold outcome.
  destruct (analyzing_committed st)
    as (Hs & He & Hf & _ & Hr & Hc & _ & _).
  pose proof (settled_from_analyzing outcome _ Hs) as (Hf' & _ & Hc' & _ & Hout).
  split; [|split; [|split; [|split]]].
  - destruct outcome as [e|r].
    + destruct Hout as (? & ? & ? & ? & _). repeat split; congruence.
    + destruct Hout as (? & ? & ? & ? & _). repeat split; congruence.
  - destruct outcome; tauto.
  - congruence.
  - congruence.
  - destruct (ServiceFacts.analyze_log env (file st) (snd (requestOf st)) w)
      as (added & -> & Hcalls & _).
    rewrite RetryFacts.calls_app. lia.
Qed.

Lemma handleAnalyze_settles_witness :
  status (fst (handleAnalyze ServiceFacts.plainEnv afterOneGeneration []))
    = ERROR /\
  error (fst (handleAnalyze ServiceFacts.plainEnv afterOneGeneration []))
    = Some "No response from Gemini".
Proof.
  assert (Hacc : ~ rejected afterOneGeneration) by (intros H; discriminate H).
  destruct (handleAnalyze_settles ServiceFacts.plainEnv (st := afterOneGeneration)
              [] Hacc) as ((Hs & _ & He & _) & _).
  split; [exact Hs | exact He].
Defined.

(** X1. Without an API key (unset or empty) an analysis that passed the
    guards fails before anything is read or sent: the only thing done to
    the world is the logging of the error, and the component ends in
    [ERROR] showing "API Key not found in environment". *)
Theorem missing_key_fails_before_any_call (env : GeminiService.Env)
  (st : State) (w : GeminiService.World) :
  GeminiService.API_KEY env = None \/ GeminiService.API_KEY env = Some "" ->
  ~ rejected st ->
  snd (handleAnalyze env st w)
    = (w ++ [GeminiService.EvConsoleError ServiceFacts.noKeyError])%list /\
  status (fst (handleAnalyze env st w)) = ERROR /\
  error (fst (handleAnalyze env st w))
    = Some "API Key not found in environment" /\
  generatedHistory (fst (handleAnalyze env st w)) = generatedHistory st.
Proof.
  intros Hkey Hacc.
  assert (Hnokey : ~ ServiceFacts.keyPresent env).
  { intros (a & k & H). destruct Hkey as [E|E]; rewrite E in H; discriminate. }
  rewrite (handleAnalyze_accepted env w Hacc). cbn [fst snd].
  rewrite (ServiceFacts.analyze_without_key (file st) (snd (requestOf st)) w Hnokey).
  cbn [fst snd]. split; [reflexivity|].
  destruct (analyzing_committed st) as (Hs & _ & _ & _ & _ & _ & Hh & _).
  pose proof (settled_from_analyzing (inl ServiceFacts.noKeyError) _ Hs)
    as (_ & _ & _ & _ & H1 & _ & H3 & _ & _ & H6).
  repeat split; [exact H1 | exact H3 | congruence].
Qed.

Definition keylessEnv : GeminiService.Env :=
  GeminiService.mkEnv None "" (fun _ => inr "AAAA")
    (fun _ _ => inr (GeminiService.mkResponse (Some "{}")))
    (fun l => String.concat "," l)
    (fun _ => inr (mkAnalysisResult "" [])).

Lemma missing_key_fails_before_any_call_witness :
  GeminiService.calls (snd (handleAnalyze keylessEnv afterOneGeneration [])) = 0 /\
  status (fst (handleAnalyze keylessEnv afterOneGeneration [])) = ERROR.
Proof.
  assert (Hacc : ~ rejected afterOneGeneration) by (intros H; discriminate H).
  destruct (@missing_key_fails_before_any_call keylessEnv afterOneGeneration []
              (or_introl eq_refl) Hacc) as (Hw & Hs & _).
  split; [now rewrite Hw | exact Hs].
Defined.

End OrchestrationFacts.

(* ================================================================== *)
(** * components/VideoAnalyzer: what is rendered, and the object URLs *)
(* ================================================================== *)

Module VideoAnalyzerView.

Import Types VideoAnalyzer.
Local Open Scope string_scope.

(** [!!error], [!!videoUrl]: set and not empty. *)
Definition shown (o : option string) : bool :=
  match o with Some s => JsString.truthy s | None => false end.

(** The [disabled] attribute of the start button:
    [(!!error && !customInstruction) || (!file && !customInstruction)]. *)
Definition startDisabled (st : State) : bool :=
  (shown (error st) && negb (JsString.truthy (customInstruction st)))
  || (negb (isSome (file st)) && negb (JsString.truthy (customInstruction st))).

(** The results pane: [status === COMPLETED && result]. *)
Definition resultsShown (st : State) : bool :=
  AnalysisStatus_eqb (status st) COMPLETED && isSome (result st).

(** The player: rendered in the branch where [file] is set, when
    [videoUrl] is. *)
Definition playerShown (st : State) : bool :=
  isSome (file st) && shown (videoUrl st).

(** The cleanup of
    [useEffect(() => () => { if (videoUrl) URL.revokeObjectURL(videoUrl) }, [videoUrl])]
    for the render whose [videoUrl] is given: it adds that URL to the
    revoked ones. *)
Definition cleanup (url : option string) (revoked : list string)
  : list string :=
  match url with
  | Some u => if JsString.truthy u then (revoked ++ [u])%list else revoked
  | None => revoked
  end.

Definition sameUrl (a b : option string) : bool :=
  match a, b with
  | Some x, Some y => (x =? y)%string
  | None, None => true
  | _, _ => false
  end.

(** After a render: the cleanup of the previous render's effect runs when
    [videoUrl] has changed. *)
Definition urlEffect (previous : option string) (st : State)
  (revoked : list string) : list string :=
  if sameUrl previous (videoUrl st) then revoked else cleanup previous revoked.

(** The component with the URLs revoked so far. *)
Definition stepWithUrls (e : Event) (c : State * list string)
  : State * list string :=
  (step e (fst c), urlEffect (videoUrl (fst c)) (step e (fst c)) (snd c)).

Definition runWithUrls (events : list Event) (c : State * list string)
  : State * list string :=
  fold_left (fun c e => stepWithUrls e c) events c.

(** Unmounting runs the cleanup of the last render. *)
Definition unmount (c : State * list string) : list string :=
  cleanup (videoUrl (fst c)) (snd c).

(** The URLs [URL.createObjectURL] handed out: one for each accepted
    file. *)
Definition created (events : list Event) : list string :=
  flat_map
    (fun e =>
       match e with
       | FileChange (Some f) url =>
           if JsString.startsWith (type f) "video/" then [url] else []
       | _ => []
       end)
    events.

Definition current (st : State) : list string :=
  match videoUrl st with Some u => [u] | None => [] end.

(** The history as the reset and record events alone determine it. *)
Definition replayHistory (events : list Event) (history : list string)
  : list string :=
  fold_left
    (fun h e =>
       match e with
       | FileChange (Some f) _ =>
           if JsString.startsWith (type f) "video/" then [] else h
       | FullResetClick | ReuploadClick | TopicClick _ => []
       | Settled (inr r) => (h ++ generatedQuotes r)%list
       | _ => h
       end)
    events history.

(** The quotes of the generations that succeeded in a run. *)
Definition generated (events : list Event) : list string :=
  flat_map
    (fun e =>
       match e with Settled (inr r) => generatedQuotes r | _ => [] end)
    events.

End VideoAnalyzerView.

Module VideoAnalyzerViewFacts.

Import Types VideoAnalyzer VideoAnalyzerFacts VideoAnalyzerView.
Local Open Scope string_scope.

(** X10. The start button is disabled exactly when the topic field is
    empty and either no file is loaded or an error is shown. So after a
    failed analysis with an empty topic field the button is disabled: a
    video-only analysis that failed cannot be started again from it; and
    with any text in the topic field the button is never disabled. *)
Theorem start_button_rule (st : State) :
  (startDisabled st = true <->
   customInstruction st = "" /\ (file st = None \/ shown (error st) = true)) /\
  (forall e,
     customInstruction st = "" ->
     startDisabled (step (Settled (inl e)) st) = true) /\
  (customInstruction st <> "" -> startDisabled st = false).
Proof.
  assert (Hrule : forall s,
            startDisabled s = true <->
            customInstruction s = "" /\ (file s = None \/ shown (error s) = true)).
  { intros s. unfold startDisabled.
    rewrite orb_true_iff, !andb_true_iff, !negb_true_iff,
      JsStringFacts.truthy_empty, isSome_false. tauto. }
  split; [apply Hrule|]. split.
  - intros e Hempty. apply Hrule.
    assert (Hstep : step (Settled (inl e)) st
                    = commit (status st)
                        (setStatus ERROR (setError (Some (failureMessage e)) st)))
      by reflexivity.
    rewrite Hstep. split.
    + destruct st as [s ? ? ? ? ? ? ? ? ? ? ?]; destruct s; exact Hempty.
    + right.
      assert (Herr : error (commit (status st)
                              (setStatus ERROR
                                 (setError (Some (failureMessage e)) st)))
                     = Some (failureMessage e)).
      { destruct st as [s ? ? ? ? ? ? ? ? ? ? ?]; destruct s; reflexivity. }
      rewrite Herr. cbn [shown]. apply JsStringFacts.truthy_nonempty.
      apply OrchestrationFacts.failureMessage_nonempty.
  - intros Hne. destruct (startDisabled st) eqn:E; [|reflexivity].
    apply Hrule in E. tauto.
Qed.

(** ** Invariants of the rendered state *)

Definition viewInv (st : State) : Prop :=
  isSome (file st) = isSome (videoUrl st) /\
  (status st = COMPLETED -> result st <> None).

Lemma commit_cells (previous : AnalysisStatus) (st : State) :
  file (commit previous st) = file st /\
  videoUrl (commit previous st) = videoUrl st /\
  result (commit previous st) = result st /\
  status (commit previous st) = status st /\
  generatedHistory (commit previous st) = generatedHistory st.
Proof.
  unfold commit. destruct (AnalysisStatus_eqb previous (status st)); [auto|].
  destruct st as [s ? ? ? ? ? ? ? ? ? ? ?]; destruct s; cbn; auto.
Qed.

Lemma handler_viewInv (e : Event) (st : State) :
  viewInv st -> viewInv (handler e st).
Proof.
  unfold viewInv. intros [Hurl Hres]. destruct e; cbn [handler].
  - unfold handleFileChange. destruct selected as [f|]; [|auto].
    destruct (negb (JsString.startsWith (type f) "video/")); cbn; auto.
    split; [reflexivity | discriminate].
  - unfold onVideoMetadataLoaded. destruct (gt duration 300); cbn; auto.
  - destruct (submit_cases st) as [(_ & _ & ->) | [(_ & ->) | (_ & _ & ->)]];
      cbn; auto. split; [exact Hurl | discriminate].
  - destruct (submit_cases st) as [(_ & _ & ->) | [(_ & ->) | (_ & _ & ->)]];
      cbn; auto. split; [exact Hurl | discriminate].
  - destruct outcome; cbn; split; auto; discriminate.
  - cbn. split; [reflexivity | discriminate].
  - cbn. auto.
  - cbn. auto.
  - cbn. auto.
  - cbn. auto.
  - unfold progressTick. destruct (interval st); [|auto].
    destruct (lt (currentProgress st) 90); cbn; auto.
Qed.

Lemma step_viewInv (e : Event) (st : State) :
  viewInv st -> viewInv (step e st).
Proof.
  intros H. apply (handler_viewInv e) in H. unfold step, render, viewInv in *.
  destruct (commit_cells (status st) (handler e st)) as (-> & -> & -> & -> & _).
  exact H.
Qed.

Lemma run_viewInv (events : list Event) (st : State) :
  viewInv st -> viewInv (run events st).
Proof.
  revert st; induction events as [|e events IH]; intros st H; [exact H|].
  cbn [run fold_left]. apply IH. now apply step_viewInv.
Qed.

(** X11. In every state the component reaches: a file is loaded exactly
    when a preview URL is set; in [COMPLETED] a result is stored, so the
    results pane is shown; the status is never [UPLOADING]; and the
    progress interval is set exactly while the status is [ANALYZING], so
    no timer is left behind. *)
Theorem reachable_state_invariants (st : State) :
  reachable st ->
  isSome (file st) = isSome (videoUrl st) /\
  (status st = COMPLETED -> resultsShown st = true) /\
  status st <> UPLOADING /\
  (interval st = true <-> status st = ANALYZING).
Proof.
  intros Hreach. pose proof (ProgressFacts.reachable_inv Hreach) as Hprog.
  destruct Hreach as [events ->].
  assert (Hview : viewInv (run events init)).
  { apply run_viewInv. split; [reflexivity | discriminate]. }
  destruct Hview as [Hurl Hres].
  unfold ProgressFacts.progressInv in Hprog.
  split; [exact Hurl|]. split; [|split].
  - intros Hs. unfold resultsShown. rewrite Hs. cbn.
    apply isSome_true. now apply Hres.
  - intros Hs. now rewrite Hs in Hprog.
  - destruct (status (run events init)); split; intros H;
      try discriminate; try tauto;
      destruct Hprog as [Hi _]; congruence.
Qed.

Lemma reachable_state_invariants_witness :
  resultsShown afterOneGeneration = true /\
  interval afterOneGeneration = false.
Proof.
  assert (Hreach : reachable afterOneGeneration).
  { exists [TopicInput "房贷"; AnalyzeClick;
            Settled (inr (mkAnalysisResult "摘要" ["一"; "二"; "三"]))].
    reflexivity. }
  destruct (reachable_state_invariants Hreach) as (_ & Hres & _ & Hint).
  split.
  - apply Hres. reflexivity.
  - destruct (interval afterOneGeneration) eqn:E; [|reflexivity].
    destruct Hint as [H _]. discriminate (H eq_refl).
Defined.

(** ** The history as a function of the events *)

Lemma step_history (e : Event) (st : State) :
  generatedHistory (step e st) = replayHistory [e] (generatedHistory st).
Proof.
  unfold step, render.
  destruct (commit_cells (status st) (handler e st)) as (_ & _ & _ & _ & ->).
  destruct e; cbn [handler replayHistory fold_left]; try reflexivity.
  - unfold handleFileChange. destruct selected as [f|]; [|reflexivity].
    destruct (JsString.startsWith (type f) "video/"); reflexivity.
  - unfold onVideoMetadataLoaded. destruct (gt duration 300); reflexivity.
  - apply submit_history.
  - apply submit_history.
  - destruct outcome; reflexivity.
  - unfold progressTick. destruct (interval st); [|reflexivity].
    destruct (lt (currentProgress st) 90); reflexivity.
Qed.

Lemma replayHistory_generated (events : list Event) (history : list string) :
  incl (replayHistory events history) (history ++ generated events).
Proof.
  revert history; induction events as [|e events IH]; intros history.
  - cbn. rewrite app_nil_r. apply incl_refl.
  - change (replayHistory (e :: events) history)
      with (replayHistory events (replayHistory [e] history)).
    intros q Hq. apply IH in Hq. apply in_app_or in Hq.
    change (generated (e :: events))
      with ((match e with Settled (inr r) => generatedQuotes r | _ => [] end)
              ++ generated events)%list.
    destruct Hq as [Hq|Hq]; [|apply in_or_app; right; apply in_or_app; now right].
    destruct e as [[f|] ? | | | | [err|r] | | | | | | ];
      cbn [replayHistory fold_left] in Hq;
      try (apply in_or_app; now left); try contradiction.
    + destruct (JsString.startsWith (type f) "video/");
        [contradiction | apply in_or_app; now left].
    + apply in_app_or in Hq. destruct Hq as [Hq|Hq].
      * apply in_or_app. now left.
      * apply in_or_app. right. apply in_or_app. now left.
Qed.

(** X12. The history is a function of the reset and record events alone:
    after any run it is what replaying the accepted files, the resets,
    the re-uploads, the chip clicks and the successful settlements gives,
    whatever metadata, ticks, typing, clicks on start and failures fell in
    between. From the first render on, it therefore holds nothing but
    quotes of generations that succeeded. *)
Theorem history_is_replay (events : list Event) (st : State) :
  generatedHistory (run events st)
    = replayHistory events (generatedHistory st) /\
  (forall q, In q (generatedHistory (run events init)) ->
             In q (generated events)).
Proof.
  assert (Hrun : forall evs s,
            generatedHistory (run evs s)
              = replayHistory evs (generatedHistory s)).
  { induction evs as [|e evs IH]; intros s; [reflexivity|].
    cbn [run fold_left]. fold (run evs (step e s)).
    rewrite IH, step_history. reflexivity. }
  split; [apply Hrun|].
  intros q Hq. rewrite Hrun in Hq.
  apply replayHistory_generated in Hq. exact Hq.
Qed.

(** ** The object URLs *)

Lemma step_videoUrl (e : Event) (st : State) :
  videoUrl (step e st) =
  match e with
  | FileChange (Some f) url =>
      if JsString.startsWith (type f) "video/" then Some url else videoUrl st
  | FullResetClick | ReuploadClick => None
  | _ => videoUrl st
  end.
Proof.
  unfold step, render.
  destruct (commit_cells (status st) (handler e st)) as (_ & -> & _).
  destruct e; cbn [handler]; try reflexivity.
  - unfold handleFileChange. destruct selected as [f|]; [|reflexivity].
    destruct (JsString.startsWith (type f) "video/"); reflexivity.
  - unfold onVideoMetadataLoaded. destruct (gt duration 300); reflexivity.
  - destruct (submit_cases st) as [(_ & _ & ->) | [(_ & ->) | (_ & _ & ->)]];
      reflexivity.
  - destruct (submit_cases st) as [(_ & _ & ->) | [(_ & ->) | (_ & _ & ->)]];
      reflexivity.
  - destruct outcome; reflexivity.
  - unfold progressTick. destruct (interval st); [|reflexivity].
    destruct (lt (currentProgress st) 90); reflexivity.
Qed.

Lemma sameUrl_refl (a : option string) : sameUrl a a = true.
Proof. destruct a; cbn; [apply String.eqb_refl | reflexivity]. Qed.

Lemma runWithUrls_snoc (events : list Event) (e : Event)
  (c : State * list string) :
  runWithUrls (events ++ [e]) c = stepWithUrls e (runWithUrls events c).
Proof. unfold runWithUrls. now rewrite fold_left_app. Qed.

Lemma created_snoc (events : list Event) (e : Event) :
  created (events ++ [e]) = (created events ++ created [e])%list.
Proof. unfold created. now rewrite flat_map_app. Qed.

(** While the URLs handed out are fresh and not empty, the revoked ones
    followed by the current one are the ones handed out, in order. *)
Lemma urls_accounted (events : list Event) :
  NoDup (created events) -> Forall (fun u => u <> "") (created events) ->
  (snd (runWithUrls events (init, [])) ++
   current (fst (runWithUrls events (init, []))))%list = created events.
Proof.
  induction events as [|e events IH] using rev_ind; [reflexivity|].
  rewrite created_snoc, runWithUrls_snoc. intros Hnodup Hne.
  apply Forall_app in Hne as [Hne Hne'].
  specialize (IH (NoDup_app_remove_r _ _ Hnodup) Hne).
  destruct (runWithUrls events (init, [])) as [st revoked].
  cbn [fst snd] in *. unfold stepWithUrls, urlEffect, current in *.
  cbn [fst snd]. rewrite step_videoUrl.
  assert (Hkeep : created [e] = [] ->
            (revoked ++
               match videoUrl st with Some u => [u] | None => [] end)%list
            = (created events ++ created [e])%list).
  { intros ->. now rewrite app_nil_r. }
  assert (Hclear :
            created [e] = [] ->
            ((if sameUrl (videoUrl st) None then revoked
              else cleanup (videoUrl st) revoked) ++ [])%list
            = (created events ++ created [e])%list).
  { intros ->. rewrite !app_nil_r. rewrite <- IH.
    destruct (videoUrl st) as [u|] eqn:Hu; cbn [sameUrl cleanup].
    - assert (Hin : In u (created events)).
      { rewrite <- IH. apply in_or_app. right. now left. }
      rewrite Forall_forall in Hne.
      apply Hne, JsStringFacts.truthy_nonempty in Hin. now rewrite Hin.
    - now rewrite app_nil_r. }
  destruct e as [[f|] url | | | | | | | | | | ];
    try (rewrite sameUrl_refl; now apply Hkeep);
    try (now apply Hclear).
  cbn [created flat_map] in *.
  destruct (JsString.startsWith (type f) "video/");
    [|rewrite sameUrl_refl; now apply Hkeep].
  cbn [app] in *. rewrite <- IH.
  destruct (videoUrl st) as [u|] eqn:Hu; cbn [sameUrl cleanup].
  - assert (Hin : In u (created events)).
    { rewrite <- IH. apply in_or_app. right. now left. }
    assert (Hfresh : (u =? url) = false).
    { apply String.eqb_neq. intros ->.
      apply NoDup_remove_2 in Hnodup. apply Hnodup.
      rewrite app_nil_r. exact Hin. }
    rewrite Hfresh. rewrite Forall_forall in Hne.
    apply Hne, JsStringFacts.truthy_nonempty in Hin. rewrite Hin.
    now rewrite <- app_assoc.
  - now rewrite app_nil_r.
Qed.

(** X13. The object URLs are accounted for. Along any run in which
    [URL.createObjectURL] hands out fresh, non-empty URLs, the revoked
    URLs followed by the current preview URL are exactly the URLs handed
    out, in order: every URL that was replaced or cleared has been revoked
    once, the URL in use is not revoked, and unmounting revokes it, so
    that none is left. *)
Theorem object_urls_accounted (events : list Event) :
  NoDup (created events) -> Forall (fun u => u <> "") (created events) ->
  (snd (runWithUrls events (init, [])) ++
   current (fst (runWithUrls events (init, []))))%list = created events /\
  NoDup (snd (runWithUrls events (init, []))) /\
  (forall u, videoUrl (fst (runWithUrls events (init, []))) = Some u ->
             ~ In u (snd (runWithUrls events (init, [])))) /\
  unmount (runWithUrls events (init, [])) = created events.
Proof.
  intros Hnodup Hne. pose proof (urls_accounted events Hnodup Hne) as Hacc.
  split; [exact Hacc|]. split; [|split].
  - rewrite <- Hacc in Hnodup. now apply NoDup_app_remove_r in Hnodup.
  - intros u Hu Hin. rewrite <- Hacc in Hnodup. unfold current in Hnodup.
    rewrite Hu in Hnodup. apply NoDup_remove_2 in Hnodup.
    apply Hnodup. now rewrite app_nil_r.
  - unfold unmount, cleanup. rewrite <- Hacc. unfold current.
    destruct (videoUrl (fst (runWithUrls events (init, [])))) as [u|] eqn:Hu;
      [|now rewrite app_nil_r].
    assert (Hin : In u (created events)).
    { rewrite <- Hacc. apply in_or_app. right. unfold current. rewrite Hu.
      now left. }
    rewrite Forall_forall in Hne.
    apply Hne, JsStringFacts.truthy_nonempty in Hin. now rewrite Hin.
Qed.

(** Two videos are loaded one after the other, then the page is reset. *)
Definition twoUploads : list Event :=
  [FileChange (Some DurationFacts.longClip) "blob:1"; ReuploadClick;
   FileChange (Some DurationFacts.shortClip) "blob:2"; FullResetClick].

Lemma object_urls_accounted_witness :
  snd (runWithUrls twoUploads (init, [])) = ["blob:1"; "blob:2"].
Proof.
  assert (Hnodup : NoDup (created twoUploads)).
  { cbn. repeat constructor; cbn; intuition discriminate. }
  assert (Hne : Forall (fun u => u <> "") (created twoUploads)).
  { cbn. repeat constructor; discriminate. }
  destruct (object_urls_accounted twoUploads Hnodup Hne) as (H & _).
  etransitivity; [symmetry; apply app_nil_r | exact H].
Defined.

End VideoAnalyzerViewFacts.

(* ================================================================== *)
(** * Properties: the library over time *)
(* ================================================================== *)

Module RotationFacts.

Import Types QuoteLibrary.
Local Open Scope string_scope.

Lemma in_slice0 {A} (n : nat) (l : list A) (x : A) :
  In x (slice0 n l) -> In x l.
Proof.
  unfold slice0. intros H. rewrite <- (firstn_skipn n l).
  apply in_or_app. now left.
Qed.

Definition isSearchInput (e : Event) : bool :=
  match e with SearchInput _ => true | _ => false end.

Section Facts.

Variable BUILT_IN_QUOTES : list Quote.
Variable toLowerCase : string -> string.
Variable sortRandomly : Random -> list Quote -> list Quote.

Local Abbreviation pool := (pool BUILT_IN_QUOTES).
Local Abbreviation refreshQuotes := (refreshQuotes BUILT_IN_QUOTES sortRandomly).
Local Abbreviation timerTick := (timerTick BUILT_IN_QUOTES sortRandomly).
Local Abbreviation displayQuotes := (displayQuotes BUILT_IN_QUOTES toLowerCase).
Local Abbreviation step := (step BUILT_IN_QUOTES sortRandomly).
Local Abbreviation run := (run BUILT_IN_QUOTES sortRandomly).
Local Abbreviation mount := (mount BUILT_IN_QUOTES sortRandomly).

(** What holds of the library after every event. *)
Definition libraryInv (st : State) : Prop :=
  (1 <= timeRemaining st <= 120)%Z /\
  List.length (visibleQuotes st) <= 8 /\
  (forall q, In q (visibleQuotes st) -> In q (pool (selectedCategory st))).

Lemma run_snoc (events : list Event) (e : Event) (st : State) :
  run (events ++ [e]) st = step e (run events st).
Proof. unfold QuoteLibrary.run. now rewrite fold_left_app. Qed.

Section Membership.

(** The least that is asked of the engine's sort here: it returns only
    elements of its input. *)
Hypothesis sortRandomly_keeps :
  forall random l q, In q (sortRandomly random l) -> In q l.

Lemma refreshQuotes_inv (random : Random) (st : State) :
  libraryInv (refreshQuotes random st).
Proof.
  unfold libraryInv, QuoteLibrary.refreshQuotes.
  cbn [timeRemaining visibleQuotes selectedCategory searchTerm setTimeRemaining setVisibleQuotes setSelectedCategory setSearchTerm].
  split; [lia|]. split.
  - apply firstn_le_length.
  - intros q Hq. apply in_slice0 in Hq. now apply sortRandomly_keeps in Hq.
Qed.

Lemma step_libraryInv (e : Event) (st : State) :
  libraryInv st -> libraryInv (step e st).
Proof.
  intros Hinv. destruct e as [cat r | r | r | value]; cbn [QuoteLibrary.step].
  - unfold handleCategoryChange.
    destruct (Category_eqb cat (selectedCategory st)); [exact Hinv|].
    apply refreshQuotes_inv.
  - apply refreshQuotes_inv.
  - unfold QuoteLibrary.timerTick.
    destruct (timeRemaining st <=? 1)%Z eqn:Ht.
    + destruct (refreshQuotes_inv r st) as (_ & H2 & H3).
      unfold libraryInv. split; [cbn; lia|]. split; assumption.
    + apply Z.leb_gt in Ht. destruct Hinv as (Htime & H2 & H3).
      unfold libraryInv. split; [cbn; lia|]. split; assumption.
  - exact Hinv.
Qed.

(** X14. The library after the first render and any sequence of category
    clicks, manual refreshes, timer ticks and search input: the countdown
    lies between 1 and 120 and so never shows 0; at most 8 quotes are
    stored for display; and every stored quote belongs to the collection
    and, unless "全部" is selected, to the selected category. *)
Theorem library_invariants (random : Random) (events : list Event) :
  let st := run events (mount random) in
  (1 <= timeRemaining st <= 120)%Z /\
  List.length (visibleQuotes st) <= 8 /\
  (forall q, In q (visibleQuotes st) ->
     In q BUILT_IN_QUOTES /\
     (selectedCategory st = CatAll \/ category q = selectedCategory st)).
Proof.
  cbv zeta.
  assert (Hinv : libraryInv (run events (mount random))).
  { induction events as [|e events IH] using rev_ind.
    - apply refreshQuotes_inv.
    - rewrite run_snoc. now apply step_libraryInv. }
  destruct Hinv as (H1 & H2 & H3). repeat split; try lia.
  - now apply H3, QuoteLibraryFacts.pool_partition in H.
  - now apply H3, QuoteLibraryFacts.pool_partition in H.
Qed.

End Membership.

Lemma setTimeRemaining_same (st : State) :
  setTimeRemaining (timeRemaining st) st = st.
Proof. now destruct st. Qed.

(** Ticks that do not reach 1 only count down. *)
Lemma ticks_count_down (randoms : list Random) (st : State) :
  (Z.of_nat (List.length randoms) < timeRemaining st)%Z ->
  run (map TimerTick randoms) st =
  setTimeRemaining (timeRemaining st - Z.of_nat (List.length randoms)) st.
Proof.
  revert st; induction randoms as [|r randoms IH]; intros st Hlen.
  - cbn. rewrite Z.sub_0_r. symmetry. apply setTimeRemaining_same.
  - cbn [map List.length] in *. cbn [QuoteLibrary.run fold_left].
    fold (run (map TimerTick randoms)
            (step (TimerTick r) st)).
    cbn [QuoteLibrary.step]. unfold QuoteLibrary.timerTick.
    assert (Ht : (timeRemaining st <=? 1)%Z = false) by (apply Z.leb_gt; lia).
    rewrite Ht, IH; cbn [timeRemaining setTimeRemaining]; [|lia].
    destruct st as [s c v t]. unfold setTimeRemaining.
    cbn [timeRemaining searchTerm selectedCategory visibleQuotes] in *.
    f_equal; lia.
Qed.

(** X15. The rotation period. From a countdown of [t >= 1], the next
    [t - 1] ticks only count down, leaving the stored quotes, the category
    and the search term as they were, and the tick after them rotates:
    the state is then that of [refreshQuotes] with that tick's random
    source. From 120, the value every rotation leaves, that is one
    rotation every 120 ticks. *)
Theorem rotation_period (st : State) (randoms : list Random) (r : Random) :
  (1 <= timeRemaining st)%Z ->
  Z.of_nat (List.length randoms) = (timeRemaining st - 1)%Z ->
  (forall k, k <= List.length randoms ->
     run (map TimerTick (firstn k randoms)) st =
     setTimeRemaining (timeRemaining st - Z.of_nat k) st) /\
  run (map TimerTick (randoms ++ [r])) st = refreshQuotes r st.
Proof.
  intros Hpos Hlen. split.
  - intros k Hk.
    assert (Hlenk : List.length (firstn k randoms) = k).
    { rewrite length_firstn. lia. }
    rewrite <- Hlenk at 2. apply ticks_count_down. lia.
  - rewrite map_app. cbn [map]. rewrite run_snoc.
    rewrite ticks_count_down by lia. rewrite Hlen.
    cbn [QuoteLibrary.step]. unfold QuoteLibrary.timerTick.
    cbn [timeRemaining setTimeRemaining].
    replace (timeRemaining st - (timeRemaining st - 1))%Z with 1%Z by lia.
    cbn. destruct st as [s c v t]. reflexivity.
Qed.

(** ** Search and rotation *)

Lemma step_commutes_with_search (e : Event) (value : string) (st : State) :
  isSearchInput e = false ->
  step e (setSearchTerm value st) = setSearchTerm value (step e st).
Proof.
  intros He. destruct e as [cat r | r | r | v]; cbn [QuoteLibrary.step];
    try discriminate.
  - unfold handleCategoryChange. cbn [selectedCategory setSearchTerm].
    destruct (Category_eqb cat (selectedCategory st)); reflexivity.
  - reflexivity.
  - unfold QuoteLibrary.timerTick. cbn [timeRemaining setSearchTerm].
    destruct (timeRemaining st <=? 1)%Z; reflexivity.
Qed.

Lemma run_commutes_with_search (events : list Event) (value : string)
  (st : State) :
  forallb (fun e => negb (isSearchInput e)) events = true ->
  run events (setSearchTerm value st) = setSearchTerm value (run events st).
Proof.
  revert st; induction events as [|e events IH]; intros st Hev; [reflexivity|].
  cbn [forallb] in Hev. apply andb_true_iff in Hev as [He Hev].
  apply negb_true_iff in He.
  cbn [QuoteLibrary.run fold_left].
  fold (run events (step e (setSearchTerm value st))).
  fold (run events (step e st)).
  rewrite step_commutes_with_search by exact He. now apply IH.
Qed.

(** X16. Searching does not pause the rotation. The search term is
    independent of the rest of the state: every category click, refresh
    and timer tick does to the countdown and to the stored quotes exactly
    what it does without a search, while the display, as long as the term
    is not empty, stays as it is. So typing a term, letting any such
    events pass and restoring the former term leaves the state those
    events alone lead to. *)
Theorem search_does_not_pause_rotation (st : State) (events : list Event)
  (value : string) :
  forallb (fun e => negb (isSearchInput e)) events = true ->
  run events (step (SearchInput value) st)
    = setSearchTerm value (run events st) /\
  (value <> "" ->
   displayQuotes (run events (step (SearchInput value) st))
     = displayQuotes (step (SearchInput value) st)) /\
  run (SearchInput value :: events ++ [SearchInput (searchTerm st)]) st
    = run events st.
Proof.
  intros Hev.
  assert (Hrun : run events (step (SearchInput value) st)
                 = setSearchTerm value (run events st)).
  { cbn [QuoteLibrary.step]. unfold onSearchInput.
    now apply run_commutes_with_search. }
  assert (Hterm : searchTerm (run events st) = searchTerm st).
  { pose proof (run_commutes_with_search events (searchTerm st) st Hev) as H.
    assert (Hst : setSearchTerm (searchTerm st) st = st) by now destruct st.
    rewrite Hst in H. rewrite H. reflexivity. }
  split; [exact Hrun|]. split.
  - intros Hvalue. rewrite Hrun. cbn [QuoteLibrary.step]. unfold onSearchInput.
    apply JsStringFacts.truthy_nonempty in Hvalue.
    unfold QuoteLibrary.displayQuotes. cbn [searchTerm setSearchTerm].
    now rewrite Hvalue.
  - change (run (SearchInput value :: events ++ [SearchInput (searchTerm st)]) st)
      with (run (events ++ [SearchInput (searchTerm st)])
              (step (SearchInput value) st)).
    rewrite run_snoc, Hrun. cbn [QuoteLibrary.step]. unfold onSearchInput.
    rewrite <- Hterm. now destruct (run events st).
Qed.

End Facts.

Lemma insertionSortRandomly_keeps (random : Random) (l : list Quote)
  (q : Quote) :
  In q (insertionSortRandomly random l) -> In q l.
Proof.
  apply Permutation_in, Permutation_sym,
    QuoteLibraryFacts.insertionSortRandomly_permutes.
Qed.

(** On the twenty records: the workplace category is chosen, the timer
    ticks twice and a search is typed. *)
Lemma library_invariants_witness :
  List.length
    (visibleQuotes
       (run QuoteLibraryFacts.twentyRecords insertionSortRandomly
          [CategoryClick CatWorkplace QuoteLibraryFacts.coin;
           TimerTick QuoteLibraryFacts.coin; TimerTick QuoteLibraryFacts.coin;
           SearchInput "崩溃"]
          (mount QuoteLibraryFacts.twentyRecords insertionSortRandomly
             QuoteLibraryFacts.coin))) <= 8.
Proof.
  apply (@library_invariants QuoteLibraryFacts.twentyRecords
           insertionSortRandomly insertionSortRandomly_keeps
           QuoteLibraryFacts.coin
           [CategoryClick CatWorkplace QuoteLibraryFacts.coin;
            TimerTick QuoteLibraryFacts.coin; TimerTick QuoteLibraryFacts.coin;
            SearchInput "崩溃"]).
Defined.

(** From a countdown of 3, two ticks count down and the third rotates. *)
Lemma rotation_period_witness :
  run QuoteLibraryFacts.twentyRecords insertionSortRandomly
    (map TimerTick
       ([QuoteLibraryFacts.coin; QuoteLibraryFacts.coin]
          ++ [QuoteLibraryFacts.coin]))
    (setTimeRemaining 3 init)
  = refreshQuotes QuoteLibraryFacts.twentyRecords insertionSortRandomly
      QuoteLibraryFacts.coin (setTimeRemaining 3 init).
Proof.
  apply (@rotation_period QuoteLibraryFacts.twentyRecords insertionSortRandomly
           (setTimeRemaining 3 init)
           [QuoteLibraryFacts.coin; QuoteLibraryFacts.coin]
           QuoteLibraryFacts.coin).
  - cbn. lia.
  - reflexivity.
Defined.

Lemma search_does_not_pause_rotation_witness :
  run QuoteLibraryFacts.twentyRecords insertionSortRandomly
    [TimerTick QuoteLibraryFacts.coin]
    (step QuoteLibraryFacts.twentyRecords insertionSortRandomly
       (SearchInput "房贷") (setTimeRemaining 1 init))
  = setSearchTerm "房贷"
      (run QuoteLibraryFacts.twentyRecords insertionSortRandomly
         [TimerTick QuoteLibraryFacts.coin] (setTimeRemaining 1 init)).
Proof.
  apply (@search_does_not_pause_rotation QuoteLibraryFacts.twentyRecords
           (fun s => s) insertionSortRandomly (setTimeRemaining 1 init)
           [TimerTick QuoteLibraryFacts.coin] "房贷").
  reflexivity.
Defined.

End RotationFacts.

(* ================================================================== *)
(** * services/geminiService.ts: [blobToBase64] *)
(* ================================================================== *)

Module DataUrl.

Local Open Scope string_scope.

Definition comma : ascii := JsString.byte 44.

(** [s.split(sep)] for a separator of one character. *)
Fixpoint split (sep : ascii) (s : string) : list string :=
  match s with
  | EmptyString => [EmptyString]
  | String c rest =>
      if Ascii.eqb c sep then EmptyString :: split sep rest
      else
        match split sep rest with
        | field :: fields => String c field :: fields
        | [] => [String c EmptyString]
        end
  end.

(** What the [FileReader] holds when [onloadend] or [onerror] fires. *)
Inductive ReaderState : Type :=
  | ResultString (result : string)
  | ResultOther                     (* an ArrayBuffer, or null *)
  | ReaderFailed (e : GeminiService.JsError).

(** How the promise of [blobToBase64] settles: it resolves with
    [reader.result.split(',')[1]], which is [undefined] ([None]) when the
    result holds no comma. *)
Definition settleRead (r : ReaderState)
  : GeminiService.JsError + option string :=
  match r with
  | ResultString result => inr (nth_error (split comma result) 1)
  | ResultOther =>
      inl (GeminiService.Error "Failed to convert blob to base64")
  | ReaderFailed e => inl e
  end.

(** [s] holds no comma. *)
Fixpoint commaFree (s : string) : bool :=
  match s with
  | EmptyString => true
  | String c rest => negb (Ascii.eqb c comma) && commaFree rest
  end.

End DataUrl.

Module DataUrlFacts.

Import DataUrl.
Local Open Scope string_scope.

Lemma split_commaFree (s : string) : commaFree s = true -> split comma s = [s].
Proof.
  induction s as [|c s IH]; [reflexivity|]. cbn [commaFree split].
  intros H. apply andb_true_iff in H as [Hc Hs]. apply negb_true_iff in Hc.
  now rewrite Hc, (IH Hs).
Qed.

Lemma split_header (header rest : string) :
  commaFree header = true ->
  split comma (header ++ String comma rest) = header :: split comma rest.
Proof.
  induction header as [|c header IH]; cbn [commaFree append split].
  - intros _. now rewrite Ascii.eqb_refl.
  - intros H. apply andb_true_iff in H as [Hc Hs]. apply negb_true_iff in Hc.
    now rewrite Hc, (IH Hs).
Qed.

(** X18. [blobToBase64] strips the data-URL header: when the reader holds
    a header without a comma, then a comma, then a payload without a comma
    (base64 text has none), the promise resolves with exactly the payload,
    the empty payload included. A result without any comma does not
    reject: the promise resolves with [undefined]. Only a result that is
    not a string, or a reader error, rejects. *)
Theorem blob_payload_extracted (header payload : string) :
  commaFree header = true -> commaFree payload = true ->
  settleRead (ResultString (header ++ String comma payload))
    = inr (Some payload) /\
  settleRead (ResultString header) = inr None /\
  settleRead ResultOther
    = inl (GeminiService.Error "Failed to convert blob to base64") /\
  (forall e, settleRead (ReaderFailed e) = inl e).
Proof.
  intros Hheader Hpayload. unfold settleRead.
  rewrite (split_header header payload Hheader), (split_commaFree payload Hpayload),
    (split_commaFree header Hheader).
  repeat split.
Qed.

Lemma blob_payload_extracted_witness :
  settleRead (ResultString "data:video/mp4;base64,AAAAIGZ0eXBpc29t")
    = inr (Some "AAAAIGZ0eXBpc29t").
Proof.
  apply (@blob_payload_extracted "data:video/mp4;base64" "AAAAIGZ0eXBpc29t");
    reflexivity.
Defined.

End DataUrlFacts.

(* ================================================================== *)
(** * Properties: the full reset *)
(* ================================================================== *)

Module ResetFacts.

Import Types VideoAnalyzer VideoAnalyzerFacts.
Local Open Scope string_scope.

(** X17. What a full reset clears and what it keeps. In every state the
    component reaches, a full reset leaves the first render's state
    except for three cells it does not write: the error message, the
    recorded video duration and the chosen length stay as they were. *)
Theorem fullReset_keeps_three_cells (st : State) :
  reachable st ->
  step FullResetClick st =
    mkState IDLE None None (videoDuration st) None (error st) ""
      (targetDuration st) [] 0%Q (currentProgress st) false /\
  setTargetDuration (targetDuration init)
    (setVideoDuration (videoDuration init)
       (setError (error init)
          (setCurrentProgress (currentProgress init)
             (step FullResetClick st)))) = init.
Proof.
  intros Hreach. pose proof (ProgressFacts.reachable_inv Hreach) as Hinv.
  assert (Hstep : step FullResetClick st =
            mkState IDLE None None (videoDuration st) None (error st) ""
              (targetDuration st) [] 0%Q (currentProgress st) false).
  { unfold ProgressFacts.progressInv in Hinv.
    destruct st as [s f u d r e c t g p cp i]. cbn in Hinv.
    destruct s; cbn; try contradiction; try reflexivity.
    destruct Hinv as [-> ->]. reflexivity. }
  split; [exact Hstep|]. rewrite Hstep. reflexivity.
Qed.

(** After an over-long video was loaded, a full reset leaves the message
    and the 301 seconds in place. *)
Definition failedThenReset : State :=
  run [FileChange (Some DurationFacts.longClip) "blob:1";
       VideoMetadataLoaded 301%Q; FullResetClick] init.

Lemma fullReset_keeps_three_cells_witness :
  error failedThenReset = Some msgOverLimit /\
  videoDuration failedThenReset = 301%Q /\
  file failedThenReset = None.
Proof.
  assert (Hreach : reachable
            (run [FileChange (Some DurationFacts.longClip) "blob:1";
                  VideoMetadataLoaded 301%Q] init)).
  { eexists. reflexivity. }
  destruct (fullReset_keeps_three_cells Hreach) as [H _].
  change failedThenReset
    with (step FullResetClick
            (run [FileChange (Some DurationFacts.longClip) "blob:1";
                  VideoMetadataLoaded 301%Q] init)).
  rewrite H. repeat split.
Defined.

End ResetFacts.
